(** * PangoT: the triangulation engine of [app.py] and its [/sync] handler

    A shallow embedding of [bearing_to_unit_vector], [perform_triangulation]
    and [sync_data].  Arithmetic is modelled over the exact reals of the
    Standard Library (numpy's float64 rounding is not modelled); in particular
    [np.linalg.lstsq] is modelled by the exact minimum-norm least-squares
    solution, with the rank decided exactly (numpy decides it with the
    tolerance [rcond]).  The pyproj transformers [to_xy] and [to_ll] are
    parameters (record [Projection]). *)

From Stdlib Require Import Reals Lra Lia List String Ascii ZArith Bool Permutation Sorted.
Import ListNotations.
Open Scope R_scope.

(** ** Python exceptions *)

(** The database operations of [sync_data] that can fail (a
    [PersistenceError] of the storage collaborator). *)
Inductive DbOp :=
| OpCommitRaw                 (** [db.session.commit()] after [add_all] *)
| OpQuery (gid : string)      (** [RawBearing.query.filter_by(group_id=gid).all()] *)
| OpDelete (gid : string)     (** [CalculatedFix.query.filter_by(group_id=gid).delete()] *)
| OpCommitFinal.              (** the final [db.session.commit()] *)

Inductive Exn :=
| KeyError (key : string)
| ValueError (what : string)
| LinAlgError (what : string)
| ProjectionError
| PersistenceError (op : DbOp).

(** [str(e)] *)
Definition exn_str (e : Exn) : string :=
  match e with
  | KeyError k => k
  | ValueError w => w
  | LinAlgError w => w
  | ProjectionError => "projection failed"
  | PersistenceError _ => "database error"
  end.

(** Computations that may raise. *)
Inductive exc (A : Type) :=
| Ok (a : A)
| Raise (e : Exn).
Arguments Ok {A} a.
Arguments Raise {A} e.

Definition exc_bind {A B} (m : exc A) (f : A -> exc B) : exc B :=
  match m with Ok a => f a | Raise e => Raise e end.

Notation "'let!' x := m 'in' k" := (exc_bind m (fun x => k))
  (at level 200, x name, m at level 100, k at level 200).

Fixpoint mapM {A B} (f : A -> exc B) (l : list A) : exc (list B) :=
  match l with
  | [] => Ok []
  | x :: xs => let! y := f x in let! ys := mapM f xs in Ok (y :: ys)
  end.

(** ** The projections [to_xy] / [to_ll] (EPSG:4326 <-> EPSG:32644,
    [always_xy=True]: both take and return (x-like, y-like) pairs). *)
Record Projection := {
  to_xy : R -> R -> exc (R * R);   (** [to_xy.transform(lon, lat)] = (x, y) *)
  to_ll : R -> R -> exc (R * R)    (** [to_ll.transform(x, y)] = (lon, lat) *)
}.

(** ** MATH HELPERS *)

Definition deg2rad (b : R) : R := b * PI / 180.

(** [bearing_to_unit_vector(b)] = [(sin(rad), cos(rad))] *)
Definition bearing_to_unit_vector (b : R) : R * R :=
  let rad := deg2rad b in (sin rad, cos rad).

(** The loop building [A] and [B]:
    [for (x, y), b in zip(points_xy, bearings)]:
    [dx, dy = bearing_to_unit_vector(b); A.append([dy, -dx]);
     B.append(dy * x - dx * y)] *)
Definition build_step (acc : list (R * R) * list R) (pb : (R * R) * R)
  : list (R * R) * list R :=
  let '(A, B) := acc in
  let '((x, y), b) := pb in
  let '(dx, dy) := bearing_to_unit_vector b in
  (A ++ [(dy, - dx)], B ++ [dy * x - dx * y]).

Definition build_system (points_xy : list (R * R)) (bearings : list R)
  : list (R * R) * list R :=
  fold_left build_step (combine points_xy bearings) ([], []).

(** *** [np.linalg.lstsq(A, B, rcond=None)] for an N x 2 matrix [A]

    The Gram matrix [A^T A = [[saa, sab], [sab, sbb]]] and [A^T B = (u, v)]. *)
Definition sum_rows (f : R * R -> R) (A : list (R * R)) : R :=
  fold_right (fun r s => f r + s) 0 A.

Fixpoint sum_rows_rhs (f : R * R -> R -> R) (A : list (R * R)) (B : list R) : R :=
  match A, B with
  | r :: A', b :: B' => f r b + sum_rows_rhs f A' B'
  | _, _ => 0
  end.

Definition gram_det (A : list (R * R)) : R :=
  sum_rows (fun r => fst r * fst r) A * sum_rows (fun r => snd r * snd r) A
  - sum_rows (fun r => fst r * snd r) A * sum_rows (fun r => fst r * snd r) A.

(** Residual sum of squares [||B - A p||^2] at a point [p]. *)
Definition rss (A : list (R * R)) (B : list R) (p : R * R) : R :=
  sum_rows_rhs (fun r b => (b - (fst r * fst p + snd r * snd p))
                           * (b - (fst r * fst p + snd r * snd p))) A B.

(** The exact rank of [A] (0, 1 or 2). *)
Definition lstsq_rank (A : list (R * R)) : nat :=
  if Req_EM_T (gram_det A) 0 then
    if Req_EM_T (sum_rows (fun r => fst r * fst r) A
                 + sum_rows (fun r => snd r * snd r) A) 0 then 0%nat else 1%nat
  else 2%nat.

(** Minimum-norm least-squares solution: Cramer's rule on the normal
    equations at rank 2, [A^+ B = A^T B / ||A||_F^2] at rank 1 (the
    pseudo-inverse of a rank-one matrix), [0] at rank 0. *)
Definition lstsq_solution (A : list (R * R)) (B : list R) : R * R :=
  let saa := sum_rows (fun r => fst r * fst r) A in
  let sbb := sum_rows (fun r => snd r * snd r) A in
  let sab := sum_rows (fun r => fst r * snd r) A in
  let u := sum_rows_rhs (fun r b => fst r * b) A B in
  let v := sum_rows_rhs (fun r b => snd r * b) A B in
  match lstsq_rank A with
  | 2%nat => ((sbb * u - sab * v) / gram_det A, (saa * v - sab * u) / gram_det A)
  | 1%nat => (u / (saa + sbb), v / (saa + sbb))
  | _ => (0, 0)
  end.

(** [sol, residuals, rank, s = np.linalg.lstsq(A, B, rcond=None)]; the
    singular values [s] are unused by the caller and left out.  numpy
    returns [residuals] as a one-element array only when the rank is full
    (2) and there are more rows than columns, otherwise an empty array.  An
    empty [A] ([np.array([])], one-dimensional) raises [LinAlgError]. *)
Definition lstsq (A : list (R * R)) (B : list R)
  : exc ((R * R) * list R * nat) :=
  match A with
  | [] => Raise (LinAlgError "1-dimensional array given. Array must be two-dimensional")
  | _ =>
      let sol := lstsq_solution A B in
      let rank := lstsq_rank A in
      let residuals :=
        if (Nat.eqb rank 2 && Nat.ltb 2 (List.length A))%bool then [rss A B sol] else [] in
      Ok (sol, residuals, rank)
  end.

(** A reading [(lat, lon, brng)]. *)
Definition Reading : Type := (R * R * R)%type.

(** [lat, lon, brng = r; x, y = to_xy.transform(lon, lat)] *)
Definition project_reading (P : Projection) (r : Reading) : exc (R * R) :=
  let '(lat, lon, _) := r in to_xy P lon lat.

Definition reading_bearing (r : Reading) : R :=
  let '(_, _, brng) := r in brng.

(** The body of the [try] block of [perform_triangulation]. *)
Definition triangulation_body (P : Projection) (readings : list Reading)
  : exc (R * R * R) :=
  let! points_xy := mapM (project_reading P) readings in
  let bearings := map reading_bearing readings in
  let '(A, B) := build_system points_xy bearings in
  let! lsq := lstsq A B in
  let '(sol, residuals, _) := lsq in
  let! ll := to_ll P (fst sol) (snd sol) in
  let '(calc_lon, calc_lat) := ll in
  let error_score :=
    match residuals with
    | [] => 0
    | r0 :: _ => sqrt (r0 / INR (List.length readings))
    end in
  Ok (calc_lat, calc_lon, error_score).

(** [perform_triangulation(readings)]: the tuple [(lat, lon, error_metric)]
    ([inl]) or the string [f"Math Error: {str(e)}"] ([inr]) from the
    [except Exception] handler. *)
Definition perform_triangulation (P : Projection) (readings : list Reading)
  : (R * R * R) + string :=
  match triangulation_body P readings with
  | Ok t => inl t
  | Raise e => inr ("Math Error: " ++ exn_str e)%string
  end.

(** ** MODELS and the [/sync] handler *)

(** Timestamps are left abstract (a [datetime]); [Z] stands for them. *)
Definition Timestamp : Type := Z.

(** One JSON record of [request.json]; a missing key is [None]. *)
Record Item := {
  i_group_id : option string;
  i_pango_id : option string;
  i_observer : option string;
  i_lat : option R;
  i_lon : option R;
  i_bearing : option R;
  i_accuracy : option R;
  i_time : option string
}.

(** [RawBearing] (table [raw_bearings]); the surrogate key [id] is left out. *)
Record RawBearing := {
  rb_group_id : string;
  rb_pango_id : string;
  rb_observer : string;
  rb_obs_lat : R;
  rb_obs_lon : R;
  rb_bearing : R;
  rb_gps_accuracy : R;
  rb_timestamp : Timestamp
}.

(** The [note] of a fix: ["Least Squares (2-Line Fix)"] or
    [f"Least Squares (Err: {err:.1f}m)"]. *)
Inductive FixNote :=
| NoteTwoLine
| NoteErr (err : R).

(** [CalculatedFix] (table [calculated_fixes]); the surrogate key [id] is
    left out. *)
Record CalculatedFix := {
  fx_group_id : string;
  fx_pango_id : string;
  fx_calc_lat : R;
  fx_calc_lon : R;
  fx_timestamp : Timestamp;
  fx_note : FixNote
}.

Record Store := mkStore { raw : list RawBearing; fixes : list CalculatedFix }.

(** Effects recorded by the handler, in order. *)
Inductive Event :=
| EvAddRaw (n : nat)
| EvCommit
| EvRollback
| EvQuery (gid : string)
| EvSolve (gid : string) (readings : list Reading)
| EvDeleteFix (gid : string)
| EvAddFix (gid : string).

(** The SQLAlchemy session: the committed database, the session's view of
    it (committed state plus pending changes, autoflushed before each
    query) and the trace of effects. *)
Record Sess := mkSess { committed : Store; working : Store; trace : list Event }.

(** Messages of [results]: [f"... {gid}: Saved {n}/2 readings"],
    [f"... {gid}: Fix Calculated! Err: {err:.2f}m"], [f"... {gid}: {res}"]. *)
Inductive SyncMsg :=
| MsgSaved (gid : string) (n : nat)
| MsgFix (gid : string) (err : R)
| MsgWarn (gid : string) (res : string).

(** The JSON response: [{"status": "success", "messages": results}] or
    [{"status": "error", "message": str(e)}] with status 500. *)
Inductive Response :=
| RespSuccess (messages : list SyncMsg)
| RespError (message : string).

(** The collaborators the handler is run against. *)
Record Env := {
  proj : Projection;
  fromisoformat : string -> option Timestamp;  (** [datetime.fromisoformat] *)
  utcnow : Timestamp;                          (** [datetime.utcnow()] *)
  set_order : list string -> list string       (** iteration order of [set(...)] *)
}.

(** [set_order] enumerates the distinct elements of its argument. *)
Definition set_order_ok (E : Env) : Prop :=
  forall l, NoDup (set_order E l) /\ forall x, In x (set_order E l) <-> In x l.

(** *** The session monad *)

Definition M (A : Type) : Type := Sess -> Sess * exc A.

Definition ret {A} (a : A) : M A := fun s => (s, Ok a).

Definition bind {A B} (m : M A) (f : A -> M B) : M B :=
  fun s => let (s', r) := m s in
           match r with Ok a => f a s' | Raise e => (s', Raise e) end.

Notation "x <- m ;; k" := (bind m (fun x => k))
  (at level 61, m at next level, right associativity).
Notation "m ;;; k" := (bind m (fun _ => k))
  (at level 61, right associativity).

Definition lift {A} (e : exc A) : M A := fun s => (s, e).

Definition log (ev : Event) : M unit :=
  fun s => (mkSess (committed s) (working s) (trace s ++ [ev]), Ok tt).

Definition modify_working (f : Store -> Store) : M unit :=
  fun s => (mkSess (committed s) (f (working s)) (trace s), Ok tt).

(** A database operation that raises [PersistenceError] when [fails op]. *)
Definition db_guard (fails : DbOp -> bool) (op : DbOp) : M unit :=
  fun s => if fails op then (s, Raise (PersistenceError op)) else (s, Ok tt).

(** [try: body except Exception as e: handler(e)] *)
Definition catch {A} (m : M A) (h : Exn -> M A) : M A :=
  fun s => let (s', r) := m s in
           match r with Ok a => (s', Ok a) | Raise e => h e s' end.

Definition db_commit (fails : DbOp -> bool) (op : DbOp) : M unit :=
  db_guard fails op ;;;
  (fun s => (mkSess (working s) (working s) (trace s), Ok tt)) ;;;
  log EvCommit.

Definition db_rollback : M unit :=
  (fun s => (mkSess (committed s) (committed s) (trace s), Ok tt)) ;;;
  log EvRollback.

(** *** Reading the request *)

(** [item[key]] *)
Definition key {A} (k : string) (o : option A) : exc A :=
  match o with Some a => Ok a | None => Raise (KeyError k) end.

(** [item.get(key, default)] *)
Definition get_default {A} (o : option A) (d : A) : A :=
  match o with Some a => a | None => d end.

(** [s.replace('Z', '+00:00')] *)
Fixpoint replace_Z (s : string) : string :=
  match s with
  | EmptyString => EmptyString
  | String c s' =>
      if Ascii.eqb c "Z"%char then ("+00:00" ++ replace_Z s')%string
      else String c (replace_Z s')
  end.

(** One iteration of the loop "1. Insert Raw Data". *)
Definition make_raw (E : Env) (item : Item) : exc RawBearing :=
  let! t := key "time" (i_time item) in
  let! ts := match fromisoformat E (replace_Z t) with
             | Some ts => Ok ts
             | None => Raise (ValueError "Invalid isoformat string")
             end in
  let! g := key "group_id" (i_group_id item) in
  let! p := key "pango_id" (i_pango_id item) in
  let observer := get_default (i_observer item) "--"%string in
  let! lat := key "lat" (i_lat item) in
  let! lon := key "lon" (i_lon item) in
  let! b := key "bearing" (i_bearing item) in
  let acc := get_default (i_accuracy item) 0 in
  Ok {| rb_group_id := g; rb_pango_id := p; rb_observer := observer;
        rb_obs_lat := lat; rb_obs_lon := lon; rb_bearing := b;
        rb_gps_accuracy := acc; rb_timestamp := ts |}.

(** *** Processing one group *)

Definition rows_of (gid : string) (rs : list RawBearing) : list RawBearing :=
  filter (fun r => String.eqb (rb_group_id r) gid) rs.

(** [(r.obs_lat, r.obs_lon, r.bearing)] *)
Definition reading_of (r : RawBearing) : Reading :=
  (rb_obs_lat r, rb_obs_lon r, rb_bearing r).

(** [RawBearing.query.filter_by(group_id=gid).all()]; rows come back in
    insertion order. *)
Definition db_query (fails : DbOp -> bool) (gid : string) : M (list RawBearing) :=
  db_guard fails (OpQuery gid) ;;;
  log (EvQuery gid) ;;;
  (fun s => (s, Ok (rows_of gid (raw (working s))))).

(** [CalculatedFix.query.filter_by(group_id=gid).delete()] *)
Definition db_delete_fixes (fails : DbOp -> bool) (gid : string) : M unit :=
  db_guard fails (OpDelete gid) ;;;
  modify_working (fun st => mkStore (raw st)
                   (filter (fun f => negb (String.eqb (fx_group_id f) gid)) (fixes st))) ;;;
  log (EvDeleteFix gid).

(** [db.session.add(new_fix)] (written at the next flush) *)
Definition db_add_fix (f : CalculatedFix) : M unit :=
  modify_working (fun st => mkStore (raw st) (fixes st ++ [f])) ;;;
  log (EvAddFix (fx_group_id f)).

Definition first_pango (rs : list RawBearing) : string :=
  match rs with r0 :: _ => rb_pango_id r0 | [] => EmptyString end.

Definition make_fix (E : Env) (gid : string) (q : list RawBearing)
  (lat lon err : R) : CalculatedFix :=
  {| fx_group_id := gid; fx_pango_id := first_pango q;
     fx_calc_lat := lat; fx_calc_lon := lon; fx_timestamp := utcnow E;
     fx_note := if Nat.ltb 2 (List.length q) then NoteErr err else NoteTwoLine |}.

(** The body of [for gid in unique_groups]. *)
Definition process_group (fails : DbOp -> bool) (E : Env) (gid : string) : M SyncMsg :=
  readings_query <- db_query fails gid ;;
  let readings_list := map reading_of readings_query in
  if Nat.ltb (List.length readings_list) 2 then
    ret (MsgSaved gid (List.length readings_list))
  else
    log (EvSolve gid readings_list) ;;;
    let res := perform_triangulation (proj E) readings_list in
    db_delete_fixes fails gid ;;;
    match res with
    | inl (lat, lon, err) =>
        db_add_fix (make_fix E gid readings_query lat lon err) ;;;
        ret (MsgFix gid err)
    | inr s => ret (MsgWarn gid s)
    end.

Fixpoint process_groups (fails : DbOp -> bool) (E : Env) (order : list string)
  : M (list SyncMsg) :=
  match order with
  | [] => ret []
  | gid :: rest =>
      m <- process_group fails E gid ;;
      ms <- process_groups fails E rest ;;
      ret (m :: ms)
  end.

(** [sync_data()] *)
Definition sync_data (fails : DbOp -> bool) (E : Env) (incoming_data : list Item)
  : M Response :=
  catch
    (gids <- lift (mapM (fun it => key "group_id" (i_group_id it)) incoming_data) ;;
     let unique_groups := set_order E gids in
     rows <- lift (mapM (make_raw E) incoming_data) ;;
     modify_working (fun st => mkStore (raw st ++ rows) (fixes st)) ;;;
     log (EvAddRaw (List.length rows)) ;;;
     db_commit fails OpCommitRaw ;;;
     results <- process_groups fails E unique_groups ;;
     db_commit fails OpCommitFinal ;;;
     ret (RespSuccess results))
    (fun e => db_rollback ;;; ret (RespError (exn_str e))).

(** A request handled against the database [db]. *)
Definition run_sync (fails : DbOp -> bool) (E : Env) (db : Store) (incoming_data : list Item)
  : Sess * exc Response :=
  sync_data fails E incoming_data (mkSess db db []).

(** ** Auxiliary definitions and concrete inputs *)

Definition sys_row (pb : (R * R) * R) : R * R :=
  let '(_, b) := pb in
  let '(dx, dy) := bearing_to_unit_vector b in (dy, - dx).

Definition sys_rhs (pb : (R * R) * R) : R :=
  let '((x, y), b) := pb in
  let '(dx, dy) := bearing_to_unit_vector b in dy * x - dx * y.

(** The error score as the code computes it from the assembled system. *)
Definition code_score (A : list (R * R)) (B : list R) (n : nat) : R :=
  if (Nat.eqb (lstsq_rank A) 2 && Nat.ltb 2 (List.length A))%bool
  then sqrt (rss A B (lstsq_solution A B) / INR n) else 0.

Definition system_of (pts : list (R * R)) (readings : list Reading) :=
  build_system pts (map reading_bearing readings).

(** A stand-in projection that keeps coordinates as they are (x = lon,
    y = lat), used to evaluate the pipeline on concrete inputs. *)
Definition flat_projection : Projection :=
  {| to_xy := fun lon lat => Ok (lon, lat); to_ll := fun x y => Ok (x, y) |}.

Definition c2_readings : list Reading := [(0, 0, 0); (0, 1, 0); (0, 2, 0)].

Definition c2_points : list (R * R) := [(0, 0); (1, 0); (2, 0)].

Definition c1_readings : list Reading := [(0, 0, 0); (0, 1, 180)].

Definition nofail : DbOp -> bool := fun _ => false.

Definition fixes_of (gid : string) (fs : list CalculatedFix) : list CalculatedFix :=
  filter (fun f => String.eqb (fx_group_id f) gid) fs.

Definition group_readings (rs : list RawBearing) (gid : string) : list Reading :=
  map reading_of (rows_of gid rs).

Definition group_msg (E : Env) (rs : list RawBearing) (gid : string) : SyncMsg :=
  let rl := group_readings rs gid in
  if Nat.ltb (List.length rl) 2 then MsgSaved gid (List.length rl)
  else match perform_triangulation (proj E) rl with
       | inl (lat, lon, err) => MsgFix gid err
       | inr s => MsgWarn gid s
       end.

Definition new_fixes (E : Env) (rs : list RawBearing) (gid : string) : list CalculatedFix :=
  match perform_triangulation (proj E) (group_readings rs gid) with
  | inl (lat, lon, err) => [make_fix E gid (rows_of gid rs) lat lon err]
  | inr _ => []
  end.

Definition group_fixes (E : Env) (rs : list RawBearing) (fs : list CalculatedFix)
  (gid : string) : list CalculatedFix :=
  if Nat.ltb (List.length (group_readings rs gid)) 2 then fs
  else filter (fun f => negb (String.eqb (fx_group_id f) gid)) fs ++ new_fixes E rs gid.

Definition group_events (E : Env) (rs : list RawBearing) (gid : string) : list Event :=
  let rl := group_readings rs gid in
  EvQuery gid ::
  (if Nat.ltb (List.length rl) 2 then []
   else EvSolve gid rl :: EvDeleteFix gid ::
        match perform_triangulation (proj E) rl with
        | inl _ => [EvAddFix gid]
        | inr _ => []
        end).

(** The order in which a batch's groups are processed. *)
Definition order_of (E : Env) (rows : list RawBearing) : list string :=
  set_order E (map rb_group_id rows).

(** The database after a run without failures. *)
Definition final_store (E : Env) (db : Store) (rows : list RawBearing) : Store :=
  mkStore (raw db ++ rows)
          (fold_left (group_fixes E (raw db ++ rows)) (order_of E rows) (fixes db)).

(** Stores in which every group holding a Fix has at least two raw rows. *)
Definition fixes_backed (db : Store) : Prop :=
  forall g, fixes_of g (fixes db) <> [] -> (2 <= List.length (rows_of g (raw db)))%nat.

Definition env0 : Env :=
  {| proj := flat_projection; fromisoformat := fun _ => Some 0%Z; utcnow := 0%Z;
     set_order := nodup string_dec |}.

(** A projection whose transform always raises. *)
Definition failing_projection : Projection :=
  {| to_xy := fun _ _ => Raise ProjectionError; to_ll := fun _ _ => Raise ProjectionError |}.

Definition env_fail : Env :=
  {| proj := failing_projection; fromisoformat := fun _ => Some 0%Z; utcnow := 0%Z;
     set_order := nodup string_dec |}.

Definition mk_item (g : string) (lat lon b : R) : Item :=
  {| i_group_id := Some g; i_pango_id := Some "P01"%string; i_observer := Some "MK"%string;
     i_lat := Some lat; i_lon := Some lon; i_bearing := Some b; i_accuracy := None;
     i_time := Some "2025-01-01T06:30:00Z"%string |}.

Definition mk_row (g : string) (lat lon b : R) : RawBearing :=
  {| rb_group_id := g; rb_pango_id := "P01"; rb_observer := "MK";
     rb_obs_lat := lat; rb_obs_lon := lon; rb_bearing := b;
     rb_gps_accuracy := 0; rb_timestamp := 0%Z |}.

Definition db0 : Store := mkStore [] [].

Definition pair_batch : list Item := [mk_item "g1" 0 0 0; mk_item "g1" 0 1 0].

Definition pair_rows : list RawBearing := [mk_row "g1" 0 0 0; mk_row "g1" 0 1 0].

Definition bad_batch : list Item :=
  [mk_item "g1" 0 0 0;
   {| i_group_id := Some "g1"%string; i_pango_id := Some "P01"%string; i_observer := None;
      i_lat := None; i_lon := Some 1; i_bearing := Some 90; i_accuracy := None;
      i_time := Some "2025-01-01T06:30:00Z"%string |}].

(** Only the final commit fails. *)
Definition final_commit_fails : DbOp -> bool :=
  fun op => match op with OpCommitFinal => true | _ => false end.

Definition single_batch : list Item := [mk_item "g1" 0 0 0].

(** Store holding one earlier observation of group g1. *)
Definition db_prev : Store := mkStore [mk_row "g1" 0 0 0] [].

Definition later_batch : list Item := [mk_item "g1" 0 1 0].

(** A Fix stored by an earlier batch for group [g]; its pango identifier
    differs from the one of the observations below. *)
Definition old_fix (g : string) : CalculatedFix :=
  {| fx_group_id := g; fx_pango_id := "P09"; fx_calc_lat := 5; fx_calc_lon := 5;
     fx_timestamp := 0%Z; fx_note := NoteErr 3 |}.

(** Store holding one observation and one Fix for each of g1 and g2. *)
Definition db_fixed : Store :=
  mkStore [mk_row "g1" 0 0 0; mk_row "g2" 85 0 0] [old_fix "g1"; old_fix "g2"].

Definition later_rows : list RawBearing := [mk_row "g1" 0 1 0].

(** A projection that raises for latitudes above 80 degrees. *)
Definition bounded_projection : Projection :=
  {| to_xy := fun lon lat => if Rle_dec lat 80 then Ok (lon, lat) else Raise ProjectionError;
     to_ll := fun x y => Ok (x, y) |}.

Definition env_bounded : Env :=
  {| proj := bounded_projection; fromisoformat := fun _ => Some 0%Z; utcnow := 0%Z;
     set_order := nodup string_dec |}.

(** A batch touching three groups: g1 (recomputed), g2 (its projection
    fails) and g3 (a single observation). *)
Definition mixed_batch : list Item :=
  [mk_item "g1" 0 1 0; mk_item "g2" 85 1 90; mk_item "g3" 0 0 0].

Definition mixed_rows : list RawBearing :=
  [mk_row "g1" 0 1 0; mk_row "g2" 85 1 90; mk_row "g3" 0 0 0].

(** Every [RawBearing] query fails. *)
Definition query_fails : DbOp -> bool :=
  fun op => match op with OpQuery _ => true | _ => false end.

(** ** The triangulation pipeline reading by reading *)

(** The projected point of a reading ([to_xy.transform(lon, lat)]),
    for readings that project. *)
Definition proj_pt (P : Projection) (r : Reading) : R * R :=
  match project_reading P r with Ok p => p | Raise _ => (0, 0) end.

(** The row [[dy, -dx]] and right-hand side [dy * x - dx * y] a reading
    contributes to the system. *)
Definition row_of (P : Projection) (r : Reading) : R * R :=
  sys_row (proj_pt P r, reading_bearing r).

Definition rhs_of (P : Projection) (r : Reading) : R :=
  sys_rhs (proj_pt P r, reading_bearing r).

(** A sum over the readings. *)
Definition sumL (F : Reading -> R) (l : list Reading) : R :=
  fold_right (fun r s => F r + s) 0 l.

(** Functions of a row and its right-hand side that do not see a change
    of sign of both. *)
Definition sign_invariant (F : R * R -> R -> R) : Prop :=
  forall a b, F (- fst a, - snd a) (- b) = F a b.

(** [r'] is [r] with its bearing turned by a whole number of half turns. *)
Definition reversed (r r' : Reading) : Prop :=
  let '(lat, lon, b) := r in exists k : Z, r' = (lat, lon, b + 180 * IZR k).

(** The cross product of two rows. *)
Definition cross2 (a b : R * R) : R := fst a * snd b - snd a * fst b.

Definition cross_readings : list Reading := [(0, 0, 0); (0, 1, 90)].

Definition cross_points : list (R * R) := [(0, 0); (1, 0)].

(** ** Results of the [/sync] handler *)

(** The group a message of [results] is about. *)
Definition msg_group (m : SyncMsg) : string :=
  match m with MsgSaved g _ => g | MsgFix g _ => g | MsgWarn g _ => g end.

(** Store holding a Fix for group g2, backed by two observations. *)
Definition db_g2 : Store :=
  mkStore [mk_row "g2" 0 0 0; mk_row "g2" 0 1 90]
          [{| fx_group_id := "g2"; fx_pango_id := "P02"; fx_calc_lat := 0; fx_calc_lon := 0;
              fx_timestamp := 0%Z; fx_note := NoteTwoLine |}].

Definition two_group_batch : list Item :=
  [mk_item "g1" 0 0 0; mk_item "g2" 0 0 0; mk_item "g1" 0 1 90].

Definition two_group_rows : list RawBearing :=
  [mk_row "g1" 0 0 0; mk_row "g2" 0 0 0; mk_row "g1" 0 1 90].

(** The first item lacks [time], the second lacks [group_id]. *)
Definition no_time_item : Item :=
  {| i_group_id := Some "g1"%string; i_pango_id := Some "P01"%string; i_observer := None;
     i_lat := Some 0; i_lon := Some 0; i_bearing := Some 0; i_accuracy := None;
     i_time := None |}.

Definition no_group_item : Item :=
  {| i_group_id := None; i_pango_id := Some "P01"%string; i_observer := None;
     i_lat := Some 0; i_lon := Some 1; i_bearing := Some 90; i_accuracy := None;
     i_time := Some "2025-01-01T06:30:00Z"%string |}.

(** ** AUTH, the animal routes and the fix routes of the dashboard *)

(** JSON values of request and response bodies. *)
Inductive Json :=
| JNull
| JStr (s : string)
| JArr (l : list Json)
| JObj (kv : list (string * Json)).

(** A response body: plain text or [jsonify(...)]. *)
Inductive Body :=
| BText (s : string)
| BJson (j : Json).

Record HttpResponse := mkResponse {
  http_status : nat;
  http_body : Body;
  http_headers : list (string * string)
}.

(** [jsonify(obj), status] *)
Definition jsonify (status : nat) (j : Json) : HttpResponse := mkResponse status (BJson j) [].

(** [{"status": s}] *)
Definition status_obj (s : string) : Json := JObj [("status"%string, JStr s)].

(** [{"status": s, "message": m}] *)
Definition status_msg_obj (s m : string) : Json :=
  JObj [("status"%string, JStr s); ("message"%string, JStr m)].

(** The double quote character. *)
Definition dquote : string := String "034"%char EmptyString.

(** ADMIN_USERNAME / ADMIN_PASSWORD *)
Record Settings := { admin_username : string; admin_password : string }.

(** [os.getenv('ADMIN_USERNAME', 'admin')], [os.getenv('ADMIN_PASSWORD', 'pango2025')] *)
Definition settings_of_env (getenv : string -> option string) : Settings :=
  {| admin_username := get_default (getenv "ADMIN_USERNAME"%string) "admin"%string;
     admin_password := get_default (getenv "ADMIN_PASSWORD"%string) "pango2025"%string |}.

(** [check_auth(username, password)] *)
Definition check_auth (C : Settings) (username password : string) : bool :=
  String.eqb username (admin_username C) && String.eqb password (admin_password C).

(** [authenticate()] *)
Definition authenticate : HttpResponse :=
  mkResponse 401 (BText "Login Required")
    [("WWW-Authenticate"%string,
      ("Basic realm=" ++ dquote ++ "Login Required" ++ dquote)%string)].

(** [@requires_auth]: [request.authorization] is the Basic credentials
    [(username, password)], or [None] when the request has no Authorization
    header of that scheme; the wrapped view threads a state. *)
Definition requires_auth {S} (C : Settings) (f : S -> S * HttpResponse)
  (auth : option (string * string)) : S -> S * HttpResponse :=
  fun s =>
    match auth with
    | Some (u, p) => if check_auth C u p then f s else (s, authenticate)
    | None => (s, authenticate)
    end.

Record Animal := mkAnimal { animal_id : string; animal_created_at : Timestamp }.







(** Flask's answer to an exception the view does not catch. *)
Definition internal_error : HttpResponse := mkResponse 500 (BText "Internal Server Error") [].


(** [str.lower()] on ASCII text. *)
Definition lower_ascii (c : ascii) : ascii :=
  let n := nat_of_ascii c in
  if (Nat.leb 65 n && Nat.leb n 90)%bool then ascii_of_nat (n + 32) else c.

Fixpoint lower (s : string) : string :=
  match s with
  | EmptyString => EmptyString
  | String c s' => String (lower_ascii c) (lower s')
  end.

Fixpoint is_prefix (p s : string) : bool :=
  match p, s with
  | EmptyString, _ => true
  | String c p', String d s' => Ascii.eqb c d && is_prefix p' s'
  | String _ _, EmptyString => false
  end.

(** [sub in s] *)
Fixpoint contains (sub s : string) : bool :=
  is_prefix sub s ||
  match s with
  | EmptyString => false
  | String _ s' => contains sub s'
  end.

(** The database under [add_animal]: committing a row whose [id] is
    already present raises the driver's integrity error with message
    [dup_message]; any other commit failure raises [commit_error]. *)
Record AnimalDb := {
  dup_message : string;
  commit_error : option string
}.

(** [add_animal()]: [body] is [request.json], [None] for a JSON [null]
    body (whose [.get] raises outside the [try]) or [Some v] for an
    object, [v] being [request.json.get('id')]: a string, or [None] when
    the key is missing or [null].  Other JSON values are not modelled. *)
Definition add_animal (D : AnimalDb) (now : Timestamp) (body : option (option string))
  (t : list Animal) : list Animal * HttpResponse :=
  match body with
  | None => (t, internal_error)
  | Some new_id =>
      match new_id with
      | None | Some EmptyString =>
          (t, jsonify 400 (status_msg_obj "error" "ID required"))
      | Some id =>
          let err :=
            if existsb (fun a => String.eqb (animal_id a) id) t then Some (dup_message D)
            else commit_error D in
          match err with
          | None => (t ++ [mkAnimal id now], jsonify 200 (status_obj "added"))
          | Some e =>
              if (contains "unique" (lower e) || contains "duplicate" (lower e))%bool
              then (t, jsonify 409 (status_obj "exists"))
              else (t, jsonify 500 (status_msg_obj "error" e))
          end
      end
  end.

(** A row of [calculated_fixes] with its primary key; the nullable text
    columns are options. *)
Record FixRow := mkFixRow {
  fr_id : Z;
  fr_group_id : string;
  fr_pango_id : option string;
  fr_calc_lat : R;
  fr_calc_lon : R;
  fr_timestamp : Timestamp;
  fr_note : option string
}.

(** [CalculatedFix.query.get(fix_id)] *)
Definition get_fix (fix_id : Z) (t : list FixRow) : option FixRow :=
  find (fun f => Z.eqb (fr_id f) fix_id) t.

(** [delete_fix(fix_id)]; [query_error] and [commit_error] are the
    messages of a failing lookup or commit (both inside the [try]). *)
Definition delete_fix (query_error commit_error : option string) (fix_id : Z)
  (t : list FixRow) : list FixRow * HttpResponse :=
  match query_error with
  | Some e => (t, jsonify 500 (status_msg_obj "error" e))
  | None =>
      match get_fix fix_id t with
      | Some _ =>
          match commit_error with
          | None => (filter (fun g => negb (Z.eqb (fr_id g) fix_id)) t,
                     jsonify 200 (status_obj "deleted"))
          | Some e => (t, jsonify 500 (status_msg_obj "error" e))
          end
      | None => (t, jsonify 404 (status_obj "not found"))
      end
  end.

(** [data.get(key, default)] on a parsed JSON object (the last binding
    of a repeated key wins, as in [json.loads]); values are strings or
    [null] ([None]). *)
Definition dict_get (d : list (string * option string)) (k : string) (default : option string)
  : option string :=
  fold_left (fun acc kv => if String.eqb (fst kv) k then snd kv else acc) d default.

(** [update_fix(fix_id)]: [data] is [request.json] ([None] for [null]);
    [data.get] on [None] raises inside the [try]. *)
Definition update_fix (query_error commit_error : option string) (fix_id : Z)
  (data : option (list (string * option string))) (t : list FixRow)
  : list FixRow * HttpResponse :=
  match query_error with
  | Some e => (t, jsonify 500 (status_msg_obj "error" e))
  | None =>
      match get_fix fix_id t with
      | Some f =>
          match data with
          | None => (t, jsonify 500 (status_msg_obj "error"
                            "'NoneType' object has no attribute 'get'"))
          | Some d =>
              let f' := {| fr_id := fr_id f; fr_group_id := fr_group_id f;
                           fr_pango_id := dict_get d "pango_id" (fr_pango_id f);
                           fr_calc_lat := fr_calc_lat f; fr_calc_lon := fr_calc_lon f;
                           fr_timestamp := fr_timestamp f;
                           fr_note := dict_get d "note" (fr_note f) |} in
              match commit_error with
              | None => (map (fun g => if Z.eqb (fr_id g) fix_id then f' else g) t,
                         jsonify 200 (status_obj "updated"))
              | Some e => (t, jsonify 500 (status_msg_obj "error" e))
              end
          end
      | None => (t, jsonify 404 (status_obj "not found"))
      end
  end.


Definition no_env : string -> option string := fun _ => None.

Definition sqlite_db : AnimalDb :=
  {| dup_message := "(sqlite3.IntegrityError) UNIQUE constraint failed: animals.id";
     commit_error := None |}.

Definition locked_db : AnimalDb :=
  {| dup_message := "(sqlite3.IntegrityError) UNIQUE constraint failed: animals.id";
     commit_error := Some "(sqlite3.OperationalError) database is locked"%string |}.

Definition fix_row (i : Z) (g : string) : FixRow :=
  mkFixRow i g (Some "P01"%string) 0 0 0%Z (Some "Least Squares (2-Line Fix)"%string).

Definition fix_table : list FixRow := [fix_row 1 "g1"; fix_row 2 "g2"].

(** ** Properties of the triangulation pipeline *)

Lemma build_fold (l : list ((R * R) * R)) (A0 : list (R * R)) (B0 : list R) :
  fold_left build_step l (A0, B0) = (A0 ++ map sys_row l, B0 ++ map sys_rhs l).
Proof.
  revert A0 B0; induction l as [|[[x y] b] l IH]; intros A0 B0; simpl.
  - rewrite !app_nil_r; reflexivity.
  - rewrite IH, <- !app_assoc; reflexivity.
Qed.

Lemma build_system_eq (pts : list (R * R)) (bs : list R) :
  build_system pts bs = (map sys_row (combine pts bs), map sys_rhs (combine pts bs)).
Proof. unfold build_system; rewrite build_fold; reflexivity. Qed.

Lemma nth_error_combine {A B} (l1 : list A) (l2 : list B) i :
  nth_error (combine l1 l2) i =
  match nth_error l1 i, nth_error l2 i with
  | Some a, Some b => Some (a, b)
  | _, _ => None
  end.
Proof.
  revert l2 i; induction l1 as [|a l1 IH]; intros [|b l2] [|i]; simpl; auto.
  destruct (nth_error l1 i); reflexivity.
Qed.

Lemma mapM_length {A B} (f : A -> exc B) (l : list A) (l' : list B) :
  mapM f l = Ok l' -> List.length l' = List.length l.
Proof.
  revert l'; induction l as [|a l IH]; intros l' H; simpl in H.
  - inversion H; reflexivity.
  - destruct (f a) as [b|e]; [|discriminate]; simpl in H.
    destruct (mapM f l) as [bs|e] eqn:E; [|discriminate]; simpl in H.
    inversion H; subst; simpl; f_equal; apply IH; reflexivity.
Qed.

(** [sin] and [cos] are [2 PI]-periodic for every integer multiple. *)
Lemma sin_cos_period_Z (x : R) (k : Z) :
  sin (x + 2 * IZR k * PI) = sin x /\ cos (x + 2 * IZR k * PI) = cos x.
Proof.
  destruct (Z_le_gt_dec 0 k) as [Hk|Hk].
  - rewrite <- (Z2Nat.id k) by exact Hk; rewrite <- INR_IZR_INZ.
    split; [apply sin_period | apply cos_period].
  - set (n := Z.to_nat (- k)).
    assert (Hn : IZR k = - INR n).
    { unfold n; rewrite INR_IZR_INZ, Z2Nat.id by lia; rewrite opp_IZR; ring. }
    rewrite Hn.
    replace (x + 2 * - INR n * PI) with (x - 2 * INR n * PI) by ring.
    pose proof (sin_period (x - 2 * INR n * PI) n) as Hs.
    pose proof (cos_period (x - 2 * INR n * PI) n) as Hc.
    replace (x - 2 * INR n * PI + 2 * INR n * PI) with x in Hs, Hc by ring.
    split; symmetry; assumption.
Qed.

(** A shift by an integer multiple of [PI] scales [(sin, cos)] by one
    common factor. *)
Lemma sin_cos_shift_Z (x : R) (k : Z) :
  exists s, sin (x + IZR k * PI) = s * sin x /\ cos (x + IZR k * PI) = s * cos x.
Proof.
  assert (Hk : (k = 2 * (k / 2) + k mod 2)%Z) by (apply Z.div_mod; lia).
  assert (Hm : (0 <= k mod 2 < 2)%Z) by (apply Z.mod_pos_bound; lia).
  assert (Hr : IZR k = 2 * IZR (k / 2) + IZR (k mod 2)).
  { rewrite Hk at 1; rewrite plus_IZR, mult_IZR; reflexivity. }
  rewrite Hr.
  replace (x + (2 * IZR (k / 2) + IZR (k mod 2)) * PI)
    with ((x + IZR (k mod 2) * PI) + 2 * IZR (k / 2) * PI) by ring.
  destruct (sin_cos_period_Z (x + IZR (k mod 2) * PI) (k / 2)) as [Hs Hc].
  rewrite Hs, Hc.
  assert (H01 : (k mod 2 = 0 \/ k mod 2 = 1)%Z) by lia.
  destruct H01 as [H0|H1].
  - exists 1; rewrite H0; replace (x + IZR 0 * PI) with x by (simpl; ring); lra.
  - exists (-1); rewrite H1; replace (x + IZR 1 * PI) with (x + PI) by (simpl; ring).
    rewrite neg_sin, neg_cos; lra.
Qed.

(** Rows that are all multiples of one vector give a singular Gram matrix. *)
Lemma gram_det_parallel (A : list (R * R)) (p q : R) :
  (forall r, In r A -> exists s, r = (s * p, s * q)) -> gram_det A = 0.
Proof.
  intro H.
  assert (HS : exists S, sum_rows (fun r => fst r * fst r) A = S * p * p /\
                         sum_rows (fun r => snd r * snd r) A = S * q * q /\
                         sum_rows (fun r => fst r * snd r) A = S * p * q).
  { induction A as [|r A IH].
    - exists 0; simpl; repeat split; ring.
    - destruct IH as [S [H1 [H2 H3]]].
      + intros r' Hr'; apply H; right; exact Hr'.
      + destruct (H r (or_introl eq_refl)) as [s ->].
        exists (s * s + S); simpl in *; rewrite H1, H2, H3; repeat split; ring. }
  destruct HS as [S [H1 [H2 H3]]]; unfold gram_det; rewrite H1, H2, H3; ring.
Qed.

(** With every projection succeeding and at least one reading, the
    pipeline returns a tuple whose score is [code_score]. *)
Lemma triangulation_body_ok (P : Projection) (readings : list Reading) (pts : list (R * R)) :
  mapM (project_reading P) readings = Ok pts ->
  readings <> [] ->
  (forall x y, exists ll, to_ll P x y = Ok ll) ->
  exists lat lon,
    triangulation_body P readings =
    Ok (lat, lon, code_score (fst (system_of pts readings))
                             (snd (system_of pts readings)) (List.length readings)).
Proof.
  intros Hm Hne Hll.
  pose proof (mapM_length _ _ _ Hm) as Hlen.
  unfold triangulation_body, system_of; rewrite Hm; cbn [exc_bind].
  rewrite build_system_eq; cbn [fst snd].
  remember (map sys_row (combine pts (map reading_bearing readings))) as A eqn:EA.
  remember (map sys_rhs (combine pts (map reading_bearing readings))) as B eqn:EB.
  assert (HA : A <> []).
  { subst A; destruct readings as [|r rs]; [congruence|].
    destruct pts as [|pt pts]; [discriminate|]; simpl; congruence. }
  destruct A as [|a A']; [congruence|].
  unfold lstsq; cbn [exc_bind].
  destruct (Hll (fst (lstsq_solution (a :: A') B)) (snd (lstsq_solution (a :: A') B)))
    as [[lon lat] E].
  rewrite E; cbn [exc_bind].
  exists lat, lon; unfold code_score.
  destruct (Nat.eqb (lstsq_rank (a :: A')) 2 && Nat.ltb 2 (List.length (a :: A')))%bool; reflexivity.
Qed.

(** The same, with the system and the back-projection given. *)
Lemma triangulation_body_sys (P : Projection) (readings : list Reading) (pts : list (R * R))
  (A : list (R * R)) (B : list R) (lon lat : R) :
  mapM (project_reading P) readings = Ok pts ->
  system_of pts readings = (A, B) ->
  A <> [] ->
  to_ll P (fst (lstsq_solution A B)) (snd (lstsq_solution A B)) = Ok (lon, lat) ->
  triangulation_body P readings = Ok (lat, lon, code_score A B (List.length readings)).
Proof.
  intros Hm Hs HA Hll.
  unfold triangulation_body; rewrite Hm; cbn [exc_bind].
  unfold system_of in Hs; rewrite Hs.
  destruct A as [|a A']; [congruence|].
  unfold lstsq; cbn [exc_bind]; rewrite Hll; cbn [exc_bind].
  unfold code_score.
  destruct (Nat.eqb (lstsq_rank (a :: A')) 2 && Nat.ltb 2 (List.length (a :: A')))%bool;
    reflexivity.
Qed.

(** A singular Gram matrix gives a rank below 2, hence an empty
    [residuals] array and a score of 0. *)
Lemma code_score_singular (A : list (R * R)) (B : list R) (n : nat) :
  gram_det A = 0 -> code_score A B n = 0.
Proof.
  intro H; unfold code_score, lstsq_rank.
  destruct (Req_EM_T (gram_det A) 0) as [_|Hne]; [|contradiction].
  destruct (Req_EM_T _ 0); reflexivity.
Qed.

Lemma deg2rad_shift (theta : R) (k : Z) :
  deg2rad (theta + 180 * IZR k) = deg2rad theta + IZR k * PI.
Proof. unfold deg2rad; field. Qed.

(** Bearings that all differ from [theta] by multiples of 180 degrees give
    rows that are multiples of one vector, hence a singular system. *)
Lemma system_parallel (pts : list (R * R)) (readings : list Reading) (theta : R) :
  (forall r, In r readings -> exists k : Z, reading_bearing r = theta + 180 * IZR k) ->
  gram_det (fst (system_of pts readings)) = 0.
Proof.
  intro Hb; unfold system_of; rewrite build_system_eq; cbn [fst].
  apply (gram_det_parallel _ (cos (deg2rad theta)) (- sin (deg2rad theta))).
  intros row Hrow.
  apply in_map_iff in Hrow; destruct Hrow as [[pt b] [Hr Hin]].
  apply in_combine_r, in_map_iff in Hin; destruct Hin as [rd [Hrd Hin]].
  destruct (Hb rd Hin) as [k Hk]; rewrite Hrd in Hk; subst b.
  destruct (sin_cos_shift_Z (deg2rad theta) k) as [s [Hs Hc]].
  exists s; rewrite <- Hr; unfold sys_row, bearing_to_unit_vector.
  rewrite Hk, deg2rad_shift, Hs, Hc; f_equal; ring.
Qed.

(** Pipeline outcome for parallel bearings: a location with score 0. *)
Lemma parallel_returns_location (P : Projection) (readings : list Reading)
  (pts : list (R * R)) (theta : R) :
  mapM (project_reading P) readings = Ok pts ->
  readings <> [] ->
  (forall x y, exists ll, to_ll P x y = Ok ll) ->
  (forall r, In r readings -> exists k : Z, reading_bearing r = theta + 180 * IZR k) ->
  exists lat lon, perform_triangulation P readings = inl (lat, lon, 0).
Proof.
  intros Hm Hne Hll Hb.
  destruct (triangulation_body_ok P readings pts Hm Hne Hll) as [lat [lon E]].
  exists lat, lon; unfold perform_triangulation; rewrite E.
  rewrite code_score_singular by (apply (system_parallel pts readings theta Hb)).
  reflexivity.
Qed.

Lemma flat_to_ll_total : forall x y, exists ll, to_ll flat_projection x y = Ok ll.
Proof. intros x y; exists (x, y); reflexivity. Qed.

Lemma deg2rad_0 : deg2rad 0 = 0.
Proof. unfold deg2rad; field. Qed.

Lemma unit_vector_0 : bearing_to_unit_vector 0 = (0, 1).
Proof. unfold bearing_to_unit_vector; rewrite deg2rad_0, sin_0, cos_0; reflexivity. Qed.

Lemma c2_system : system_of c2_points c2_readings = ([(1, 0); (1, 0); (1, 0)], [0; 1; 2]).
Proof.
  unfold system_of; rewrite build_system_eq; simpl.
  rewrite deg2rad_0, sin_0, cos_0.
  repeat f_equal; ring.
Qed.

Lemma c2_rank : lstsq_rank [(1, 0); (1, 0); (1, 0)] = 1%nat.
Proof.
  unfold lstsq_rank.
  destruct (Req_EM_T _ 0) as [_|Hne].
  - destruct (Req_EM_T _ 0) as [Hz|_]; [|reflexivity].
    exfalso; simpl in Hz; lra.
  - exfalso; apply Hne; unfold gram_det; simpl; ring.
Qed.

Lemma c2_solution : lstsq_solution [(1, 0); (1, 0); (1, 0)] [0; 1; 2] = (1, 0).
Proof.
  unfold lstsq_solution; rewrite c2_rank; simpl; f_equal; field.
Qed.

Lemma c2_rss (p : R * R) : rss [(1, 0); (1, 0); (1, 0)] [0; 1; 2] p
                           = 3 * (fst p - 1) * (fst p - 1) + 2.
Proof. unfold rss; simpl; ring. Qed.

(** ** Claims on the triangulation pipeline *)

(** C1 (amended).  Parallel or antiparallel bearings are not rejected:
    when every bearing of a non-empty group differs from one direction
    [theta] by a whole multiple of 180 degrees and the projections succeed
    both ways, the assembled system has rank below 2, yet
    [perform_triangulation] returns a location tuple, not an error: the
    back-projection of the solution [lstsq_solution] of that system (the
    point [np.linalg.lstsq] returns).  For a group of (at most) two such
    observations the error score is 0. *)
Theorem C1_parallel_bearings_return_location (P : Projection) (readings : list Reading)
  (pts : list (R * R)) (theta : R) :
  mapM (project_reading P) readings = Ok pts ->
  readings <> [] ->
  (forall x y, exists ll, to_ll P x y = Ok ll) ->
  (forall r, In r readings -> exists k : Z, reading_bearing r = theta + 180 * IZR k) ->
  lstsq_rank (fst (system_of pts readings)) <> 2%nat /\
  exists lat lon err,
    to_ll P (fst (lstsq_solution (fst (system_of pts readings)) (snd (system_of pts readings))))
            (snd (lstsq_solution (fst (system_of pts readings)) (snd (system_of pts readings))))
      = Ok (lon, lat) /\
    perform_triangulation P readings = inl (lat, lon, err) /\
    ((List.length readings <= 2)%nat -> err = 0).
Proof.
  intros Hm Hne Hll Hb.
  pose proof (system_parallel pts readings theta Hb) as Hg.
  assert (HA : fst (system_of pts readings) <> []).
  { pose proof (mapM_length _ _ _ Hm) as Hlen.
    unfold system_of; rewrite build_system_eq; cbn [fst].
    destruct readings as [|r rs]; [congruence|].
    destruct pts as [|pt pts]; [discriminate|]; simpl; congruence. }
  split.
  - unfold lstsq_rank.
    destruct (Req_EM_T (gram_det _) 0) as [_|Hne']; [|contradiction].
    destruct (Req_EM_T _ 0); discriminate.
  - destruct (system_of pts readings) as [A B] eqn:Hs; cbn [fst snd] in *.
    destruct (Hll (fst (lstsq_solution A B)) (snd (lstsq_solution A B))) as [[lon lat] Hl].
    exists lat, lon, 0; split; [exact Hl|split; [|intros _; reflexivity]].
    unfold perform_triangulation.
    rewrite (triangulation_body_sys P readings pts A B lon lat Hm Hs HA Hl).
    rewrite (code_score_singular A B _ Hg); reflexivity.
Qed.

Lemma C1_witness :
  mapM (project_reading flat_projection) c1_readings = Ok [(0, 0); (1, 0)] /\
  (lstsq_rank (fst (system_of [(0, 0); (1, 0)] c1_readings)) <> 2%nat /\
   exists lat lon err,
     to_ll flat_projection
       (fst (lstsq_solution (fst (system_of [(0, 0); (1, 0)] c1_readings))
                            (snd (system_of [(0, 0); (1, 0)] c1_readings))))
       (snd (lstsq_solution (fst (system_of [(0, 0); (1, 0)] c1_readings))
                            (snd (system_of [(0, 0); (1, 0)] c1_readings))))
       = Ok (lon, lat) /\
     perform_triangulation flat_projection c1_readings = inl (lat, lon, err) /\
     ((List.length c1_readings <= 2)%nat -> err = 0)).
Proof.
  split; [reflexivity|].
  apply (C1_parallel_bearings_return_location flat_projection c1_readings [(0, 0); (1, 0)] 0).
  - reflexivity.
  - discriminate.
  - apply flat_to_ll_total.
  - intros r [<-|[<-|[]]]; [exists 0%Z | exists 1%Z]; simpl; ring.
Defined.

(** C1, counterexample.  Two observations whose bearings (0 and 180
    degrees) differ by exactly 180 degrees: the pipeline returns a
    location, not an error. *)
Lemma C1_counterexample :
  exists lat lon, perform_triangulation flat_projection c1_readings = inl (lat, lon, 0).
Proof.
  apply (parallel_returns_location flat_projection c1_readings [(0, 0); (1, 0)] 0).
  - reflexivity.
  - discriminate.
  - apply flat_to_ll_total.
  - intros r [<-|[<-|[]]]; [exists 0%Z | exists 1%Z]; simpl; ring.
Qed.

(** C2 (code defect).  Three observations with the same bearing (0
    degrees) at three distinct positions: the least-squares residual of the
    assembled system is 2 at its minimum (attained at numpy's solution), so
    [sqrt(residualSumOfSquares / 3)] is positive, yet the code reports an
    error score of 0 because numpy returns an empty [residuals] array for a
    rank-deficient matrix. *)
Lemma C2_rank_deficient_score_zero :
  perform_triangulation flat_projection c2_readings = inl (0, 1, 0) /\
  system_of c2_points c2_readings = ([(1, 0); (1, 0); (1, 0)], [0; 1; 2]) /\
  (forall p, 2 <= rss [(1, 0); (1, 0); (1, 0)] [0; 1; 2] p) /\
  rss [(1, 0); (1, 0); (1, 0)] [0; 1; 2]
      (lstsq_solution [(1, 0); (1, 0); (1, 0)] [0; 1; 2]) = 2 /\
  0 < sqrt (rss [(1, 0); (1, 0); (1, 0)] [0; 1; 2]
              (lstsq_solution [(1, 0); (1, 0); (1, 0)] [0; 1; 2])
            / INR (List.length c2_readings)).
Proof.
  assert (Hrss : rss [(1, 0); (1, 0); (1, 0)] [0; 1; 2]
                   (lstsq_solution [(1, 0); (1, 0); (1, 0)] [0; 1; 2]) = 2).
  { rewrite c2_rss, c2_solution; simpl; ring. }
  split; [|split; [exact c2_system|split; [|split; [exact Hrss|]]]].
  - unfold perform_triangulation.
    rewrite (triangulation_body_sys flat_projection c2_readings c2_points
               [(1, 0); (1, 0); (1, 0)] [0; 1; 2] 1 0);
      [| reflexivity | exact c2_system | discriminate
       | rewrite c2_solution; reflexivity].
    rewrite code_score_singular; [reflexivity|].
    unfold gram_det; simpl; ring.
  - intro p; rewrite c2_rss; pose proof (Rle_0_sqr (fst p - 1)); unfold Rsqr in *; lra.
  - rewrite Hrss; apply sqrt_lt_R0; simpl; lra.
Qed.

(** C7.  The linear system builder emits, for the i-th observation with
    planar position [(x, y)] and bearing vector [(dx, dy)], the i-th row
    [(dy, -dx)] of [A] and the i-th entry [dy*x - dx*y] of [B]: one row per
    observation, in order. *)
Theorem C7_one_row_per_observation (pts : list (R * R)) (bs : list R) :
  List.length pts = List.length bs ->
  List.length (fst (build_system pts bs)) = List.length pts /\
  List.length (snd (build_system pts bs)) = List.length pts /\
  forall i x y b, nth_error pts i = Some (x, y) -> nth_error bs i = Some b ->
    nth_error (fst (build_system pts bs)) i =
      Some (snd (bearing_to_unit_vector b), - fst (bearing_to_unit_vector b)) /\
    nth_error (snd (build_system pts bs)) i =
      Some (snd (bearing_to_unit_vector b) * x - fst (bearing_to_unit_vector b) * y).
Proof.
  intro Hl; rewrite build_system_eq; cbn [fst snd].
  rewrite !length_map, length_combine, Hl, Nat.min_id.
  split; [reflexivity|split; [reflexivity|]].
  intros i x y b Hp Hb.
  rewrite !nth_error_map, nth_error_combine, Hp, Hb; cbn [option_map].
  unfold sys_row, sys_rhs; destruct (bearing_to_unit_vector b); split; reflexivity.
Qed.

Lemma C7_witness :
  List.length [(1, 2)] = List.length [0] /\
  nth_error (fst (build_system [(1, 2)] [0])) 0 =
    Some (snd (bearing_to_unit_vector 0), - fst (bearing_to_unit_vector 0)).
Proof.
  split; [reflexivity|].
  destruct (C7_one_row_per_observation [(1, 2)] [0] eq_refl) as [_ [_ H]].
  exact (proj1 (H 0%nat 1 2 0 eq_refl eq_refl)).
Defined.

(** C8.  [bearing_to_unit_vector] is total on all reals, returns
    [(sin r, cos r)] with [r] the bearing in radians, and gives the same
    vector for [b] and [b + 360 k] for every integer [k] (so for [b] and
    its modulo-360 equivalent).  Exact real arithmetic. *)
Theorem C8_unit_vector_periodic (b : R) :
  bearing_to_unit_vector b = (sin (b * PI / 180), cos (b * PI / 180)) /\
  forall k : Z, bearing_to_unit_vector (b + 360 * IZR k) = bearing_to_unit_vector b.
Proof.
  split; [reflexivity|].
  intro k; unfold bearing_to_unit_vector, deg2rad.
  replace ((b + 360 * IZR k) * PI / 180) with (b * PI / 180 + 2 * IZR k * PI) by field.
  destruct (sin_cos_period_Z (b * PI / 180) k) as [-> ->]; reflexivity.
Qed.

(** C10.  [perform_triangulation] is total: on every list of readings it
    returns a tuple [(lat, lon, error_score)] or a string starting with
    ["Math Error: "]. *)
Theorem C10_perform_triangulation_total (P : Projection) (readings : list Reading) :
  (exists lat lon e, perform_triangulation P readings = inl (lat, lon, e)) \/
  (exists msg, perform_triangulation P readings = inr ("Math Error: " ++ msg)%string).
Proof.
  unfold perform_triangulation.
  destruct (triangulation_body P readings) as [[[lat lon] e]|ex].
  - left; exists lat, lon, e; reflexivity.
  - right; exists (exn_str ex); reflexivity.
Qed.

(** ** The handler without persistence failures, in closed form *)

Lemma process_group_nofail (E : Env) (gid : string) (s : Sess) :
  process_group nofail E gid s =
  (mkSess (committed s)
          (mkStore (raw (working s)) (group_fixes E (raw (working s)) (fixes (working s)) gid))
          (trace s ++ group_events E (raw (working s)) gid),
   Ok (group_msg E (raw (working s)) gid)).
Proof.
  destruct s as [c [rw fx] t].
  unfold process_group, group_fixes, new_fixes, group_events, group_msg, group_readings,
    db_query, db_delete_fixes, db_add_fix, db_guard, modify_working, bind, log, ret, nofail.
  cbn -[rows_of perform_triangulation].
  destruct (Nat.leb _ 1).
  - reflexivity.
  - destruct (perform_triangulation (proj E) (map reading_of (rows_of gid rw)))
      as [[[lat lon] err]|m]; cbn -[rows_of];
      rewrite <- !app_assoc, ?app_nil_r; reflexivity.
Qed.

Lemma process_groups_nofail (E : Env) (order : list string) (s : Sess) :
  process_groups nofail E order s =
  (mkSess (committed s)
          (mkStore (raw (working s))
                   (fold_left (group_fixes E (raw (working s))) order (fixes (working s))))
          (trace s ++ flat_map (group_events E (raw (working s))) order),
   Ok (map (group_msg E (raw (working s))) order)).
Proof.
  revert s; induction order as [|g order IH]; intro s.
  - destruct s as [c [rw fx] t]; cbn; rewrite app_nil_r; reflexivity.
  - cbn [process_groups]; unfold bind at 1; rewrite process_group_nofail.
    unfold bind; rewrite IH; cbn [committed working trace raw fixes].
    rewrite <- app_assoc; reflexivity.
Qed.

Lemma make_raw_group_id (E : Env) (it : Item) (r : RawBearing) :
  make_raw E it = Ok r -> key "group_id" (i_group_id it) = Ok (rb_group_id r).
Proof.
  unfold make_raw, key, get_default, exc_bind; intro H.
  destruct (i_time it); [|discriminate].
  destruct (fromisoformat E _); [|discriminate].
  destruct (i_group_id it); [|discriminate].
  destruct (i_pango_id it); [|discriminate].
  destruct (i_lat it); [|discriminate].
  destruct (i_lon it); [|discriminate].
  destruct (i_bearing it); [|discriminate].
  inversion H; reflexivity.
Qed.

Lemma make_raw_group_ids (E : Env) (batch : list Item) (rows : list RawBearing) :
  mapM (make_raw E) batch = Ok rows ->
  mapM (fun it => key "group_id" (i_group_id it)) batch = Ok (map rb_group_id rows).
Proof.
  revert rows; induction batch as [|it batch IH]; intros rows H; cbn in H.
  - inversion H; reflexivity.
  - destruct (make_raw E it) as [r|e] eqn:Er; [|discriminate]; cbn in H.
    destruct (mapM (make_raw E) batch) as [rs|e] eqn:Ers; [|discriminate]; cbn in H.
    inversion H; subst; cbn.
    rewrite (make_raw_group_id E it r Er), (IH rs eq_refl); reflexivity.
Qed.

Lemma run_sync_nofail (E : Env) (db : Store) (batch : list Item) (rows : list RawBearing) :
  mapM (make_raw E) batch = Ok rows ->
  run_sync nofail E db batch =
  (mkSess (final_store E db rows) (final_store E db rows)
          ([EvAddRaw (List.length rows); EvCommit]
           ++ flat_map (group_events E (raw db ++ rows)) (order_of E rows) ++ [EvCommit]),
   Ok (RespSuccess (map (group_msg E (raw db ++ rows)) (order_of E rows)))).
Proof.
  intro Hr; pose proof (make_raw_group_ids E batch rows Hr) as Hg.
  unfold run_sync, sync_data, catch, lift, db_commit, db_guard, modify_working, log, ret.
  unfold bind at 1 2 3 4 5 6 7 8 9 10; rewrite Hg, Hr; cbn -[process_groups].
  rewrite process_groups_nofail; cbn.
  unfold final_store, order_of; reflexivity.
Qed.

(** ** Runs with persistence failures *)

Lemma process_group_cases (fails : DbOp -> bool) (E : Env) (gid : string) (s : Sess) :
  process_group fails E gid s = process_group nofail E gid s \/
  exists s' e, process_group fails E gid s = (s', Raise e) /\ committed s' = committed s.
Proof.
  destruct s as [c w t].
  unfold process_group, db_query, db_delete_fixes, db_add_fix, db_guard,
    modify_working, bind, log, ret, nofail.
  destruct (fails (OpQuery gid)); cbn -[rows_of perform_triangulation].
  - right; eexists _, _; split; reflexivity.
  - destruct (Nat.leb _ 1); [left; reflexivity|].
    destruct (fails (OpDelete gid)); cbn -[rows_of perform_triangulation].
    + right; eexists _, _; split; reflexivity.
    + left; reflexivity.
Qed.

Lemma process_groups_cases (fails : DbOp -> bool) (E : Env) (order : list string) (s : Sess) :
  process_groups fails E order s = process_groups nofail E order s \/
  exists s' e, process_groups fails E order s = (s', Raise e) /\ committed s' = committed s.
Proof.
  revert s; induction order as [|g order IH]; intro s; [left; reflexivity|].
  cbn [process_groups]; unfold bind.
  destruct (process_group_cases fails E g s) as [Heq|[s' [e [Heq Hc]]]]; rewrite Heq.
  - rewrite process_group_nofail; cbn iota beta.
    set (s1 := mkSess _ _ _).
    destruct (IH s1) as [Heq2|[s2 [e2 [Heq2 Hc2]]]]; rewrite Heq2.
    + left; reflexivity.
    + right; exists s2, e2; split; [reflexivity|exact Hc2].
  - right; exists s', e; split; [reflexivity|exact Hc].
Qed.

(** Every run either is the failure-free run, which succeeds, or reports an
    error after a rollback, with the database either untouched or holding
    the batch's raw rows (committed before the groups were processed). *)
Lemma run_sync_shape (fails : DbOp -> bool) (E : Env) (db : Store) (batch : list Item) :
  (run_sync fails E db batch = run_sync nofail E db batch /\
   exists msgs, snd (run_sync nofail E db batch) = Ok (RespSuccess msgs)) \/
  (exists s msg, run_sync fails E db batch = (s, Ok (RespError msg)) /\
     (committed s = db \/
      exists rows, mapM (make_raw E) batch = Ok rows /\ fails OpCommitRaw = false /\
                   committed s = mkStore (raw db ++ rows) (fixes db))).
Proof.
  destruct (mapM (make_raw E) batch) as [rows|e] eqn:Hr.
  - pose proof (make_raw_group_ids E batch rows Hr) as Hg.
    unfold run_sync, sync_data, catch, lift, db_commit, db_guard, db_rollback,
      modify_working, log, ret.
    unfold bind; rewrite Hg, Hr.
    destruct (fails OpCommitRaw) eqn:Hc; cbn -[process_groups].
    + right; eexists _, _; split; [reflexivity|left; reflexivity].
    + match goal with
      | |- context [process_groups fails E ?o ?st] =>
          destruct (process_groups_cases fails E o st) as [Heq|[s' [e [Heq Hc']]]];
          rewrite Heq
      end.
      * rewrite process_groups_nofail; cbn -[process_groups].
        destruct (fails OpCommitFinal) eqn:Hf; cbn -[process_groups].
        -- right; eexists _, _; split; [reflexivity|right].
           exists rows; split; [reflexivity|split; [reflexivity|reflexivity]].
        -- left; split; [reflexivity|eexists; reflexivity].
      * cbn -[process_groups]; right; eexists _, _; split; [reflexivity|right].
        exists rows; split; [reflexivity|split; [reflexivity|]].
        rewrite Hc'; reflexivity.
  - right.
    unfold run_sync, sync_data, catch, lift, db_commit, db_guard, db_rollback,
      modify_working, log, ret.
    unfold bind.
    destruct (mapM (fun it => key "group_id" (i_group_id it)) batch);
      cbn -[process_groups]; rewrite ?Hr; cbn;
      eexists _, _; split; try reflexivity; left; reflexivity.
Qed.

Lemma mapM_raise {A B} (f : A -> exc B) (l : list A) (a : A) (e : Exn) :
  In a l -> f a = Raise e -> exists e', mapM f l = Raise e'.
Proof.
  induction l as [|a' l IH]; intros Hin He; [destruct Hin|].
  cbn; destruct (f a') as [b|e'] eqn:Ea'.
  - destruct Hin as [<-|Hin]; [congruence|].
    destruct (IH Hin He) as [e'' He'']; rewrite He''; exists e''; reflexivity.
  - exists e'; reflexivity.
Qed.

Lemma run_sync_raise (fails : DbOp -> bool) (E : Env) (db : Store) (batch : list Item) (e : Exn) :
  mapM (make_raw E) batch = Raise e ->
  exists s msg, run_sync fails E db batch = (s, Ok (RespError msg)) /\ committed s = db.
Proof.
  intro Hr.
  unfold run_sync, sync_data, catch, lift, db_commit, db_guard, db_rollback,
    modify_working, log, ret.
  unfold bind.
  destruct (mapM (fun it => key "group_id" (i_group_id it)) batch);
    cbn -[process_groups]; rewrite ?Hr; cbn;
    eexists _, _; split; reflexivity.
Qed.

Lemma process_group_raise (fails : DbOp -> bool) (E : Env) (gid : string) (s : Sess) :
  fails (OpQuery gid) = true \/
  (fails (OpDelete gid) = true /\ (2 <= List.length (rows_of gid (raw (working s))))%nat) ->
  exists s' e, process_group fails E gid s = (s', Raise e).
Proof.
  destruct s as [c [rw fx] t]; cbn [working raw]; intro H.
  unfold process_group, db_query, db_delete_fixes, db_add_fix, db_guard,
    modify_working, bind, log, ret.
  destruct (fails (OpQuery gid)) eqn:Hq; cbn -[rows_of perform_triangulation].
  - eexists _, _; reflexivity.
  - destruct H as [H|[Hd H2]]; [discriminate|].
    replace (Nat.leb _ 1) with false
      by (symmetry; apply Nat.leb_gt; rewrite length_map; lia).
    rewrite Hd; cbn -[rows_of perform_triangulation]; eexists _, _; reflexivity.
Qed.

Lemma process_groups_raise (fails : DbOp -> bool) (E : Env) (order : list string)
  (g : string) (s : Sess) :
  In g order ->
  fails (OpQuery g) = true \/
  (fails (OpDelete g) = true /\ (2 <= List.length (rows_of g (raw (working s))))%nat) ->
  exists s' e, process_groups fails E order s = (s', Raise e).
Proof.
  revert s; induction order as [|g' order IH]; intros s Hin Hf; [destruct Hin|].
  cbn [process_groups]; unfold bind.
  destruct Hin as [<-|Hin].
  - destruct (process_group_raise fails E g' s Hf) as [s1 [e1 Hr]]; rewrite Hr.
    exists s1, e1; reflexivity.
  - destruct (process_group_cases fails E g' s) as [Heq|[s' [e [Heq _]]]]; rewrite Heq.
    + rewrite process_group_nofail; cbn iota beta.
      match goal with
      | |- context [process_groups fails E order ?st] =>
          destruct (IH st Hin Hf) as [s2 [e2 Hr]]; rewrite Hr
      end.
      exists s2, e2; reflexivity.
    + exists s', e; reflexivity.
Qed.

Lemma run_sync_after_raw (fails : DbOp -> bool) (E : Env) (db : Store) (batch : list Item)
  (rows : list RawBearing) :
  mapM (make_raw E) batch = Ok rows ->
  fails OpCommitRaw = false ->
  let st := mkStore (raw db ++ rows) (fixes db) in
  let s1 := mkSess st st [EvAddRaw (List.length rows); EvCommit] in
  run_sync fails E db batch =
  let (s2, r) := process_groups fails E (order_of E rows) s1 in
  match r with
  | Ok ms =>
      if fails OpCommitFinal
      then (mkSess (committed s2) (committed s2) (trace s2 ++ [EvRollback]),
            Ok (RespError (exn_str (PersistenceError OpCommitFinal))))
      else (mkSess (working s2) (working s2) (trace s2 ++ [EvCommit]), Ok (RespSuccess ms))
  | Raise e => (mkSess (committed s2) (committed s2) (trace s2 ++ [EvRollback]),
                Ok (RespError (exn_str e)))
  end.
Proof.
  intros Hr Hc st s1.
  pose proof (make_raw_group_ids E batch rows Hr) as Hg.
  unfold run_sync, sync_data, catch, lift, db_commit, db_guard, db_rollback,
    modify_working, log, ret.
  unfold bind; rewrite Hg, Hr, Hc; cbn -[process_groups].
  unfold order_of.
  destruct (process_groups fails E (set_order E (map rb_group_id rows)) _) as [s2 [ms|e]].
  - destruct (fails OpCommitFinal); reflexivity.
  - reflexivity.
Qed.

Lemma run_sync_raw_commit_fails (fails : DbOp -> bool) (E : Env) (db : Store)
  (batch : list Item) (rows : list RawBearing) :
  mapM (make_raw E) batch = Ok rows ->
  fails OpCommitRaw = true ->
  exists s msg, run_sync fails E db batch = (s, Ok (RespError msg)) /\ committed s = db.
Proof.
  intros Hr Hc.
  pose proof (make_raw_group_ids E batch rows Hr) as Hg.
  unfold run_sync, sync_data, catch, lift, db_commit, db_guard, db_rollback,
    modify_working, log, ret.
  unfold bind; rewrite Hg, Hr, Hc; cbn -[process_groups].
  eexists _, _; split; reflexivity.
Qed.

Lemma run_sync_error_after_raw (fails : DbOp -> bool) (E : Env) (db : Store)
  (batch : list Item) (rows : list RawBearing) (s : Sess) (msg : string) :
  mapM (make_raw E) batch = Ok rows ->
  fails OpCommitRaw = false ->
  run_sync fails E db batch = (s, Ok (RespError msg)) ->
  committed s = mkStore (raw db ++ rows) (fixes db).
Proof.
  intros Hr Hc H; rewrite (run_sync_after_raw fails E db batch rows Hr Hc) in H.
  cbv zeta in H.
  match type of H with
  | context [process_groups fails E ?o ?st] =>
      destruct (process_groups_cases fails E o st) as [Heq|[s' [e [Heq Hc']]]];
      rewrite Heq in H
  end.
  - rewrite process_groups_nofail in H.
    destruct (fails OpCommitFinal); injection H as <- H; [reflexivity|discriminate].
  - injection H as <-; exact Hc'.
Qed.

(** ** Per-group effect of a failure-free run *)

Lemma fixes_of_app (g : string) (l1 l2 : list CalculatedFix) :
  fixes_of g (l1 ++ l2) = fixes_of g l1 ++ fixes_of g l2.
Proof. unfold fixes_of; apply filter_app. Qed.

Lemma fixes_of_delete_self (g : string) (fs : list CalculatedFix) :
  fixes_of g (filter (fun f => negb (String.eqb (fx_group_id f) g)) fs) = [].
Proof.
  unfold fixes_of; induction fs as [|f fs IH]; [reflexivity|]; cbn.
  destruct (String.eqb (fx_group_id f) g) eqn:E; cbn; [exact IH|].
  rewrite E; exact IH.
Qed.

Lemma fixes_of_delete_other (g g' : string) (fs : list CalculatedFix) :
  g' <> g ->
  fixes_of g (filter (fun f => negb (String.eqb (fx_group_id f) g')) fs) = fixes_of g fs.
Proof.
  intro Hne; unfold fixes_of; induction fs as [|f fs IH]; [reflexivity|]; cbn.
  destruct (String.eqb (fx_group_id f) g') eqn:E1; cbn.
  - rewrite IH; apply String.eqb_eq in E1; rewrite E1.
    apply String.eqb_neq in Hne; rewrite Hne; reflexivity.
  - rewrite IH; reflexivity.
Qed.

Lemma fixes_of_new (E : Env) (rs : list RawBearing) (g g' : string) :
  fixes_of g (new_fixes E rs g') = if String.eqb g' g then new_fixes E rs g' else [].
Proof.
  unfold new_fixes; destruct (perform_triangulation _ _) as [[[lat lon] err]|m].
  - unfold fixes_of; cbn; destruct (String.eqb g' g); reflexivity.
  - destruct (String.eqb g' g); reflexivity.
Qed.

Lemma fixes_of_group_self (E : Env) (rs : list RawBearing) (fs : list CalculatedFix) (g : string) :
  fixes_of g (group_fixes E rs fs g) =
  if Nat.ltb (List.length (group_readings rs g)) 2 then fixes_of g fs else new_fixes E rs g.
Proof.
  unfold group_fixes; destruct (Nat.ltb _ 2); [reflexivity|].
  rewrite fixes_of_app, fixes_of_delete_self, fixes_of_new, String.eqb_refl; reflexivity.
Qed.

Lemma fixes_of_group_other (E : Env) (rs : list RawBearing) (fs : list CalculatedFix)
  (g g' : string) :
  g' <> g -> fixes_of g (group_fixes E rs fs g') = fixes_of g fs.
Proof.
  intro Hne; unfold group_fixes; destruct (Nat.ltb _ 2); [reflexivity|].
  rewrite fixes_of_app, fixes_of_delete_other, fixes_of_new by exact Hne.
  apply String.eqb_neq in Hne; rewrite Hne, app_nil_r; reflexivity.
Qed.

Lemma fixes_of_fold_notin (E : Env) (rs : list RawBearing) (order : list string)
  (fs : list CalculatedFix) (g : string) :
  ~ In g order -> fixes_of g (fold_left (group_fixes E rs) order fs) = fixes_of g fs.
Proof.
  revert fs; induction order as [|g' order IH]; intros fs Hn; [reflexivity|].
  cbn [fold_left]; rewrite IH by (intro H; apply Hn; right; exact H).
  apply fixes_of_group_other; intro H; apply Hn; left; exact H.
Qed.

Lemma fixes_of_fold_in (E : Env) (rs : list RawBearing) (order : list string)
  (fs : list CalculatedFix) (g : string) :
  NoDup order -> In g order ->
  fixes_of g (fold_left (group_fixes E rs) order fs) =
  if Nat.ltb (List.length (group_readings rs g)) 2 then fixes_of g fs else new_fixes E rs g.
Proof.
  revert fs; induction order as [|g' order IH]; intros fs Hnd Hin; [destruct Hin|].
  inversion Hnd as [|x l Hnotin Hnd']; subst.
  cbn [fold_left].
  destruct (string_dec g' g) as [<-|Hne].
  - rewrite fixes_of_fold_notin by exact Hnotin; apply fixes_of_group_self.
  - destruct Hin as [Heq|Hin]; [contradiction|].
    rewrite (IH _ Hnd' Hin), fixes_of_group_other by exact Hne; reflexivity.
Qed.

Lemma group_events_tagged (E : Env) (rs : list RawBearing) (g : string) (ev : Event) :
  In ev (group_events E rs g) ->
  ev = EvQuery g \/
  (Nat.ltb (List.length (group_readings rs g)) 2 = false /\
   (ev = EvSolve g (group_readings rs g) \/ ev = EvDeleteFix g \/
    (ev = EvAddFix g /\ exists t, perform_triangulation (proj E) (group_readings rs g) = inl t))).
Proof.
  unfold group_events; intros [H|H]; [left; symmetry; exact H|right].
  destruct (Nat.ltb _ 2); [destruct H|].
  split; [reflexivity|].
  destruct H as [H|[H|H]]; [left; symmetry; exact H|right; left; symmetry; exact H|].
  right; right.
  destruct (perform_triangulation _ _) as [t|m]; [|destruct H].
  destruct H as [H|[]]; split; [symmetry; exact H|exists t; reflexivity].
Qed.

Lemma rows_of_app_length (g : string) (l1 l2 : list RawBearing) :
  (List.length (rows_of g l1) <= List.length (rows_of g (l1 ++ l2)))%nat.
Proof. unfold rows_of; rewrite filter_app, length_app; lia. Qed.

(** A successful run is the failure-free run. *)
Lemma run_sync_success (fails : DbOp -> bool) (E : Env) (db : Store) (batch : list Item)
  (rows : list RawBearing) (s : Sess) (msgs : list SyncMsg) :
  mapM (make_raw E) batch = Ok rows ->
  run_sync fails E db batch = (s, Ok (RespSuccess msgs)) ->
  s = mkSess (final_store E db rows) (final_store E db rows)
             ([EvAddRaw (List.length rows); EvCommit]
              ++ flat_map (group_events E (raw db ++ rows)) (order_of E rows) ++ [EvCommit]) /\
  msgs = map (group_msg E (raw db ++ rows)) (order_of E rows).
Proof.
  intros Hr H.
  destruct (run_sync_shape fails E db batch) as [[Heq _]|[s' [m [Heq _]]]];
    rewrite Heq in H; [|discriminate].
  rewrite run_sync_nofail with (rows := rows) in H by exact Hr.
  inversion H; split; reflexivity.
Qed.

Lemma group_event_in_trace (E : Env) (rs : list RawBearing) (order : list string)
  (pre post : list Event) (ev : Event) :
  (forall g, ev <> EvQuery g) ->
  (forall n, ev <> EvAddRaw n) -> ev <> EvCommit ->
  In ev (pre ++ flat_map (group_events E rs) order ++ post) ->
  (forall e, In e pre -> (exists n, e = EvAddRaw n) \/ e = EvCommit) ->
  (forall e, In e post -> e = EvCommit) ->
  exists g, In g order /\ In ev (group_events E rs g).
Proof.
  intros Hq Ha Hc H Hpre Hpost.
  apply in_app_iff in H; destruct H as [H|H].
  - destruct (Hpre ev H) as [[n ->]| ->]; [exfalso; eapply Ha; reflexivity|contradiction].
  - apply in_app_iff in H; destruct H as [H|H].
    + apply in_flat_map in H; exact H.
    + rewrite (Hpost ev H) in Hc; contradiction.
Qed.

Lemma run_trace_group_event (E : Env) (db : Store) (rows : list RawBearing) (ev : Event) :
  (forall g, ev <> EvQuery g) -> (forall n, ev <> EvAddRaw n) -> ev <> EvCommit ->
  In ev ([EvAddRaw (List.length rows); EvCommit]
         ++ flat_map (group_events E (raw db ++ rows)) (order_of E rows) ++ [EvCommit]) ->
  exists g, In g (order_of E rows) /\ In ev (group_events E (raw db ++ rows) g).
Proof.
  intros Hq Ha Hc H.
  apply (group_event_in_trace E _ _ [EvAddRaw (List.length rows); EvCommit] [EvCommit] ev
           Hq Ha Hc H).
  - intros e [<-|[<-|[]]]; [left; eexists; reflexivity|right; reflexivity].
  - intros e [<-|[]]; reflexivity.
Qed.

Lemma in_run_trace (E : Env) (db : Store) (rows : list RawBearing) (g : string) (ev : Event) :
  In g (order_of E rows) -> In ev (group_events E (raw db ++ rows) g) ->
  In ev ([EvAddRaw (List.length rows); EvCommit]
         ++ flat_map (group_events E (raw db ++ rows)) (order_of E rows) ++ [EvCommit]).
Proof.
  intros Hg Hev; apply in_app_iff; right; apply in_app_iff; left.
  apply in_flat_map; exists g; split; assumption.
Qed.

Lemma order_of_spec (E : Env) (rows : list RawBearing) (g : string) :
  set_order_ok E -> NoDup (order_of E rows) /\ (In g (order_of E rows) <-> In g (map rb_group_id rows)).
Proof. intro HE; destruct (HE (map rb_group_id rows)) as [Hnd Hin]; split; [exact Hnd|apply Hin]. Qed.

(** ** Claims on the [/sync] handler *)

Lemma env0_ok : set_order_ok env0.
Proof. intro l; split; [apply NoDup_nodup|intro x; apply nodup_In]. Qed.

Lemma env_fail_ok : set_order_ok env_fail.
Proof. intro l; split; [apply NoDup_nodup|intro x; apply nodup_In]. Qed.

Lemma env_bounded_ok : set_order_ok env_bounded.
Proof. intro l; split; [apply NoDup_nodup|intro x; apply nodup_In]. Qed.

Lemma pair_batch_rows (E : Env) : fromisoformat E = (fun _ => Some 0%Z) ->
  mapM (make_raw E) pair_batch = Ok pair_rows.
Proof. intro H; unfold pair_batch, make_raw; rewrite H; reflexivity. Qed.

(** C3.  When a batch is handled successfully and recomputes a group
    (at least two observations on file, triangulation returns a tuple),
    the prior Fix rows of the group are deleted and exactly one new Fix
    with that group identifier is stored; if the database held at most one
    Fix per group identifier before, it still does afterwards. *)
Theorem C3_replace_semantics (fails : DbOp -> bool) (E : Env) (db : Store)
  (batch : list Item) (rows : list RawBearing) (s : Sess) (msgs : list SyncMsg)
  (gid : string) (lat lon err : R) :
  set_order_ok E ->
  mapM (make_raw E) batch = Ok rows ->
  run_sync fails E db batch = (s, Ok (RespSuccess msgs)) ->
  In gid (map rb_group_id rows) ->
  (2 <= List.length (group_readings (raw db ++ rows) gid))%nat ->
  perform_triangulation (proj E) (group_readings (raw db ++ rows) gid) = inl (lat, lon, err) ->
  fixes_of gid (fixes (committed s)) =
    [make_fix E gid (rows_of gid (raw db ++ rows)) lat lon err] /\
  In (EvDeleteFix gid) (trace s) /\
  ((forall g, (List.length (fixes_of g (fixes db)) <= 1)%nat) ->
   forall g, (List.length (fixes_of g (fixes (committed s))) <= 1)%nat).
Proof.
  intros HE Hr Hrun Hin H2 Ht.
  destruct (run_sync_success fails E db batch rows s msgs Hr Hrun) as [-> _].
  cbn [committed trace]; unfold final_store; cbn [fixes].
  destruct (order_of_spec E rows gid HE) as [Hnd Hiff].
  assert (Hlt : Nat.ltb (List.length (group_readings (raw db ++ rows) gid)) 2 = false)
    by (apply Nat.ltb_ge; exact H2).
  split; [|split].
  - rewrite fixes_of_fold_in by (exact Hnd || apply Hiff; exact Hin).
    rewrite Hlt; unfold new_fixes; rewrite Ht; reflexivity.
  - apply (in_run_trace E db rows gid); [apply Hiff; exact Hin|].
    unfold group_events; rewrite Hlt; right; right; left; reflexivity.
  - intros Hinv g.
    destruct (in_dec string_dec g (order_of E rows)) as [Hg|Hg].
    + rewrite fixes_of_fold_in by assumption.
      destruct (Nat.ltb (List.length (group_readings (raw db ++ rows) g)) 2); [apply Hinv|].
      unfold new_fixes.
      destruct (perform_triangulation (proj E) (group_readings (raw db ++ rows) g))
        as [[[? ?] ?]|?]; cbn; lia.
    + rewrite fixes_of_fold_notin by exact Hg; apply Hinv.
Qed.

Lemma C3_witness :
  exists s msgs lat lon,
    run_sync nofail env0 db_fixed later_batch = (s, Ok (RespSuccess msgs)) /\
    fixes_of "g1" (fixes db_fixed) = [old_fix "g1"] /\
    fixes_of "g1" (fixes (committed s)) =
      [make_fix env0 "g1" (rows_of "g1" (raw db_fixed ++ later_rows)) lat lon 0] /\
    ~ In (old_fix "g1") (fixes (committed s)) /\
    In (EvDeleteFix "g1") (trace s) /\
    (forall g, (List.length (fixes_of g (fixes (committed s))) <= 1)%nat).
Proof.
  destruct (parallel_returns_location flat_projection [(0, 0, 0); (0, 1, 0)]
              [(0, 0); (1, 0)] 0 eq_refl ltac:(discriminate) flat_to_ll_total)
    as [lat [lon Ht]].
  { intros r [<-|[<-|[]]]; exists 0%Z; simpl; ring. }
  pose proof (run_sync_nofail env0 db_fixed later_batch later_rows eq_refl) as Hrun.
  set (s := fst (run_sync nofail env0 db_fixed later_batch)).
  set (msgs := map (group_msg env0 (raw db_fixed ++ later_rows)) (order_of env0 later_rows)).
  assert (Hrun' : run_sync nofail env0 db_fixed later_batch = (s, Ok (RespSuccess msgs)))
    by (unfold s, msgs; rewrite Hrun; reflexivity).
  destruct (C3_replace_semantics nofail env0 db_fixed later_batch later_rows s msgs "g1"
              lat lon 0 env0_ok eq_refl Hrun' ltac:(left; reflexivity) ltac:(cbn; lia) Ht)
    as [Hfx [Hdel Hinv]].
  exists s, msgs, lat, lon.
  split; [exact Hrun'|split; [reflexivity|split; [exact Hfx|split; [|split; [exact Hdel|]]]]].
  - intro Hin.
    assert (Hin' : In (old_fix "g1") (fixes_of "g1" (fixes (committed s))))
      by (apply filter_In; split; [exact Hin|reflexivity]).
    rewrite Hfx in Hin'; destruct Hin' as [Heq|[]].
    apply (f_equal fx_pango_id) in Heq; cbn in Heq; discriminate.
  - apply Hinv; intro g; unfold fixes_of; cbn [fixes db_fixed filter old_fix fx_group_id].
    destruct (String.eqb "g1" g) eqn:E1, (String.eqb "g2" g) eqn:E2; cbn; try lia.
    apply String.eqb_eq in E1, E2; congruence.
Defined.

(** C4 (amended).  Processing is not all-or-nothing per batch.  If
    building a raw row raises for some record (a missing required field or
    an unparsable timestamp), or the commit of the raw rows fails, the batch
    reports an error and nothing is committed.  If a persistence failure
    happens after that commit (the final commit, or the query of a group's
    observations, or the deletion of the Fix of a group with two or more
    observations), the batch reports an error, its Fix changes are rolled
    back, and its raw observation rows stay committed.  Whenever the batch
    reports an error, the committed Fix rows are those from before. *)
Theorem C4_error_commits_no_fix (fails : DbOp -> bool) (E : Env) (db : Store) (batch : list Item) :
  ((exists it e, In it batch /\ make_raw E it = Raise e) ->
   exists s msg, run_sync fails E db batch = (s, Ok (RespError msg)) /\ committed s = db) /\
  (forall rows, mapM (make_raw E) batch = Ok rows ->
     (fails OpCommitRaw = true ->
      exists s msg, run_sync fails E db batch = (s, Ok (RespError msg)) /\ committed s = db) /\
     (fails OpCommitRaw = false ->
      fails OpCommitFinal = true \/
      (set_order_ok E /\
       exists g, In g (map rb_group_id rows) /\
         (fails (OpQuery g) = true \/
          (fails (OpDelete g) = true /\
           (2 <= List.length (rows_of g (raw db ++ rows)))%nat))) ->
      exists s msg, run_sync fails E db batch = (s, Ok (RespError msg)) /\
        committed s = mkStore (raw db ++ rows) (fixes db))) /\
  (forall s msg, run_sync fails E db batch = (s, Ok (RespError msg)) ->
     fixes (committed s) = fixes db /\
     ((exists e, mapM (make_raw E) batch = Raise e) \/ fails OpCommitRaw = true ->
      committed s = db) /\
     (forall rows, mapM (make_raw E) batch = Ok rows -> fails OpCommitRaw = false ->
      committed s = mkStore (raw db ++ rows) (fixes db))).
Proof.
  assert (Hraise : forall e, mapM (make_raw E) batch = Raise e ->
            forall s msg, run_sync fails E db batch = (s, Ok (RespError msg)) -> committed s = db).
  { intros e He s msg H.
    destruct (run_sync_raise fails E db batch e He) as [s' [m [H' Hc]]].
    rewrite H' in H; injection H as <- _; exact Hc. }
  assert (Hrawc : forall rows, mapM (make_raw E) batch = Ok rows -> fails OpCommitRaw = true ->
            forall s msg, run_sync fails E db batch = (s, Ok (RespError msg)) -> committed s = db).
  { intros rows Hr Hc s msg H.
    destruct (run_sync_raw_commit_fails fails E db batch rows Hr Hc) as [s' [m [H' Hc']]].
    rewrite H' in H; injection H as <- _; exact Hc'. }
  split; [|split].
  - intros [it [e [Hin He]]].
    destruct (mapM_raise (make_raw E) batch it e Hin He) as [e' He'].
    exact (run_sync_raise fails E db batch e' He').
  - intros rows Hr; split; [exact (run_sync_raw_commit_fails fails E db batch rows Hr)|].
    intros Hc Hf.
    assert (Hnot : forall s msgs, run_sync fails E db batch <> (s, Ok (RespSuccess msgs))).
    { intros s msgs H; rewrite (run_sync_after_raw fails E db batch rows Hr Hc) in H.
      cbv zeta in H.
      destruct Hf as [Hf|[HE [g [Hg Hgf]]]].
      - match type of H with
        | context [process_groups fails E ?o ?st] =>
            destruct (process_groups fails E o st) as [s2 [ms|e]]
        end; [rewrite Hf in H|]; discriminate.
      - destruct (order_of_spec E rows g HE) as [_ Hiff].
        match type of H with
        | context [process_groups fails E ?o ?st] =>
            destruct (process_groups_raise fails E o g st (proj2 Hiff Hg) Hgf)
              as [s2 [e Heq]]; rewrite Heq in H
        end; discriminate. }
    destruct (run_sync_shape fails E db batch) as [[Heq [msgs Hm]]|[s [msg [Heq _]]]].
    + exfalso; apply (Hnot (fst (run_sync nofail E db batch)) msgs).
      rewrite Heq, <- Hm; destruct (run_sync nofail E db batch); reflexivity.
    + exists s, msg; split; [exact Heq|].
      exact (run_sync_error_after_raw fails E db batch rows s msg Hr Hc Heq).
  - intros s msg H.
    assert (Hc2 : ((exists e, mapM (make_raw E) batch = Raise e) \/ fails OpCommitRaw = true ->
                   committed s = db)).
    { intros [[e He]|Hc].
      - exact (Hraise e He s msg H).
      - destruct (mapM (make_raw E) batch) as [rows|e] eqn:Hr.
        + exact (Hrawc rows eq_refl Hc s msg H).
        + exact (Hraise e eq_refl s msg H). }
    assert (Hc3 : forall rows, mapM (make_raw E) batch = Ok rows -> fails OpCommitRaw = false ->
                  committed s = mkStore (raw db ++ rows) (fixes db))
      by (intros rows Hr Hc; exact (run_sync_error_after_raw fails E db batch rows s msg Hr Hc H)).
    split; [|split; [exact Hc2|exact Hc3]].
    destruct (mapM (make_raw E) batch) as [rows|e] eqn:Hr.
    + destruct (fails OpCommitRaw) eqn:Hc.
      * rewrite (Hc2 (or_intror eq_refl)); reflexivity.
      * rewrite (Hc3 rows eq_refl eq_refl); reflexivity.
    + rewrite (Hc2 (or_introl (ex_intro _ e eq_refl))); reflexivity.
Qed.

Lemma C4_witness :
  (exists s msg,
     run_sync nofail env0 db_fixed bad_batch = (s, Ok (RespError msg)) /\
     committed s = db_fixed) /\
  (exists s msg,
     run_sync final_commit_fails env0 db_fixed later_batch = (s, Ok (RespError msg)) /\
     committed s = mkStore (raw db_fixed ++ later_rows) (fixes db_fixed)) /\
  (exists s msg,
     run_sync query_fails env0 db_fixed later_batch = (s, Ok (RespError msg)) /\
     committed s = mkStore (raw db_fixed ++ later_rows) (fixes db_fixed)).
Proof.
  split; [|split].
  - apply (proj1 (C4_error_commits_no_fix nofail env0 db_fixed bad_batch)).
    eexists _, _; split; [right; left; reflexivity|reflexivity].
  - apply (proj2 (proj1 (proj2 (C4_error_commits_no_fix final_commit_fails env0 db_fixed later_batch))
                   later_rows eq_refl) eq_refl).
    left; reflexivity.
  - apply (proj2 (proj1 (proj2 (C4_error_commits_no_fix query_fails env0 db_fixed later_batch))
                   later_rows eq_refl) eq_refl).
    right; split; [exact env0_ok|].
    exists "g1"%string; split; [left; reflexivity|left; reflexivity].
Defined.

(** C4, counterexample.  A batch whose final commit fails reports an error,
    yet its raw observation row stays committed. *)
Lemma C4_counterexample :
  exists s msg,
    run_sync final_commit_fails env0 db0 single_batch = (s, Ok (RespError msg)) /\
    raw (committed s) = [mk_row "g1" 0 0 0] /\ raw db0 = [].
Proof. eexists _, _; split; [reflexivity|split; reflexivity]. Qed.

(** C5.  With no persistence failure, a group with at least two
    observations whose triangulation fails ends with no Fix (the prior one
    is deleted, none inserted), the failure is the group's message, and the
    batch still succeeds with one message per group, every other group
    processed as on its own. *)
Theorem C5_geometry_failure_is_per_group (E : Env) (db : Store) (batch : list Item)
  (rows : list RawBearing) (gid : string) (m : string) :
  set_order_ok E ->
  mapM (make_raw E) batch = Ok rows ->
  In gid (map rb_group_id rows) ->
  (2 <= List.length (group_readings (raw db ++ rows) gid))%nat ->
  perform_triangulation (proj E) (group_readings (raw db ++ rows) gid) = inr m ->
  exists s msgs,
    run_sync nofail E db batch = (s, Ok (RespSuccess msgs)) /\
    fixes_of gid (fixes (committed s)) = [] /\
    In (EvDeleteFix gid) (trace s) /\
    In (MsgWarn gid m) msgs /\
    msgs = map (group_msg E (raw db ++ rows)) (order_of E rows) /\
    (forall g, In g (map rb_group_id rows) ->
       In (group_msg E (raw db ++ rows) g) msgs /\
       fixes_of g (fixes (committed s)) =
         fixes_of g (group_fixes E (raw db ++ rows) (fixes db) g)).
Proof.
  intros HE Hr Hin H2 Ht.
  rewrite (run_sync_nofail E db batch rows Hr).
  eexists _, _; split; [reflexivity|].
  cbn [committed trace]; unfold final_store; cbn [fixes].
  destruct (order_of_spec E rows gid HE) as [Hnd Hiff].
  assert (Hlt : Nat.ltb (List.length (group_readings (raw db ++ rows) gid)) 2 = false)
    by (apply Nat.ltb_ge; exact H2).
  split; [|split; [|split; [|split; [reflexivity|]]]].
  - rewrite fixes_of_fold_in by (exact Hnd || apply Hiff; exact Hin).
    rewrite Hlt; unfold new_fixes; rewrite Ht; reflexivity.
  - apply (in_run_trace E db rows gid); [apply Hiff; exact Hin|].
    unfold group_events; rewrite Hlt; right; right; left; reflexivity.
  - apply in_map_iff; exists gid; split; [|apply Hiff; exact Hin].
    unfold group_msg; rewrite Hlt, Ht; reflexivity.
  - intros g Hg; destruct (order_of_spec E rows g HE) as [_ Hiffg].
    split.
    + apply in_map; apply Hiffg; exact Hg.
    + rewrite fixes_of_fold_in by (exact Hnd || apply Hiffg; exact Hg).
      symmetry; apply fixes_of_group_self.
Qed.

Lemma C5_witness :
  exists s msgs lat lon,
    run_sync nofail env_bounded db_fixed mixed_batch = (s, Ok (RespSuccess msgs)) /\
    fixes_of "g2" (fixes db_fixed) = [old_fix "g2"] /\
    fixes_of "g2" (fixes (committed s)) = [] /\
    In (EvDeleteFix "g2") (trace s) /\
    In (MsgWarn "g2" "Math Error: projection failed") msgs /\
    In (MsgFix "g1" 0) msgs /\
    fixes_of "g1" (fixes (committed s)) =
      [make_fix env_bounded "g1" (rows_of "g1" (raw db_fixed ++ mixed_rows)) lat lon 0] /\
    In (MsgSaved "g3" 1) msgs.
Proof.
  assert (Hm1 : mapM (project_reading bounded_projection) [(0, 0, 0); (0, 1, 0)]
                = Ok [(0, 0); (1, 0)])
    by (cbn; destruct (Rle_dec 0 80); [reflexivity|lra]).
  destruct (parallel_returns_location bounded_projection [(0, 0, 0); (0, 1, 0)]
              [(0, 0); (1, 0)] 0 Hm1 ltac:(discriminate))
    as [lat [lon Ht1]].
  { intros x y; exists (x, y); reflexivity. }
  { intros r [<-|[<-|[]]]; exists 0%Z; simpl; ring. }
  assert (Hp1 : perform_triangulation (proj env_bounded)
                  (group_readings (raw db_fixed ++ mixed_rows) "g1") = inl (lat, lon, 0))
    by exact Ht1.
  assert (Hp2 : perform_triangulation (proj env_bounded)
                  (group_readings (raw db_fixed ++ mixed_rows) "g2")
                = inr "Math Error: projection failed"%string).
  { unfold perform_triangulation, triangulation_body; cbn.
    destruct (Rle_dec 85 80); [lra|reflexivity]. }
  destruct (C5_geometry_failure_is_per_group env_bounded db_fixed mixed_batch mixed_rows "g2"
              "Math Error: projection failed" env_bounded_ok eq_refl
              ltac:(right; left; reflexivity) ltac:(cbn; lia) Hp2)
    as [s [msgs [Hrun [Hfx [Hdel [Hmsg [_ Hall]]]]]]].
  exists s, msgs, lat, lon.
  destruct (Hall "g1"%string ltac:(left; reflexivity)) as [Hm1' Hf1].
  destruct (Hall "g3"%string ltac:(right; right; left; reflexivity)) as [Hm3 _].
  split; [exact Hrun|split; [reflexivity|split; [exact Hfx|split; [exact Hdel|]]]].
  split; [exact Hmsg|split; [|split; [|exact Hm3]]].
  - assert (Hg1 : group_msg env_bounded (raw db_fixed ++ mixed_rows) "g1" = MsgFix "g1" 0)
      by (unfold group_msg; cbv zeta; rewrite Hp1; reflexivity).
    rewrite <- Hg1; exact Hm1'.
  - rewrite Hf1; unfold group_fixes, new_fixes; rewrite Hp1; reflexivity.
Defined.

(** C6.  When a batch is handled successfully, a group of the batch with
    fewer than two observations on file reports the pending message with
    its count; no triangulation is run for it and no Fix of it is deleted
    or inserted, so its Fix rows are those it had before, which is none
    in a store where only groups with two or more observations hold a Fix. *)
Theorem C6_pending_below_two (fails : DbOp -> bool) (E : Env) (db : Store)
  (batch : list Item) (rows : list RawBearing) (s : Sess) (msgs : list SyncMsg)
  (gid : string) :
  set_order_ok E ->
  mapM (make_raw E) batch = Ok rows ->
  run_sync fails E db batch = (s, Ok (RespSuccess msgs)) ->
  In gid (map rb_group_id rows) ->
  (List.length (group_readings (raw db ++ rows) gid) < 2)%nat ->
  In (MsgSaved gid (List.length (rows_of gid (raw db ++ rows)))) msgs /\
  (forall rl, ~ In (EvSolve gid rl) (trace s)) /\
  ~ In (EvDeleteFix gid) (trace s) /\
  ~ In (EvAddFix gid) (trace s) /\
  fixes_of gid (fixes (committed s)) = fixes_of gid (fixes db) /\
  (fixes_backed db -> fixes_of gid (fixes (committed s)) = []).
Proof.
  intros HE Hr Hrun Hin H1.
  destruct (run_sync_success fails E db batch rows s msgs Hr Hrun) as [-> ->].
  cbn [committed trace]; unfold final_store; cbn [fixes].
  destruct (order_of_spec E rows gid HE) as [Hnd Hiff].
  assert (Hlt : Nat.ltb (List.length (group_readings (raw db ++ rows) gid)) 2 = true)
    by (apply Nat.ltb_lt; exact H1).
  assert (Hno : forall ev, In ev ([EvAddRaw (List.length rows); EvCommit]
                   ++ flat_map (group_events E (raw db ++ rows)) (order_of E rows)
                   ++ [EvCommit]) ->
                ev = EvDeleteFix gid \/ ev = EvAddFix gid \/ (exists rl, ev = EvSolve gid rl) ->
                False).
  { intros ev Hev Hk.
    destruct (run_trace_group_event E db rows ev) as [g [_ Hg]];
      [intros g'| intros n| |exact Hev|];
      try (destruct Hk as [->|[->|[rl ->]]]; discriminate).
    destruct (group_events_tagged E (raw db ++ rows) g ev Hg) as [->|[Hg2 Hk']];
      [destruct Hk as [H|[H|[rl H]]]; discriminate|].
    assert (g = gid) as ->.
    { destruct Hk as [->|[->|[rl ->]]];
        destruct Hk' as [H|[H|[H _]]]; congruence. }
    congruence. }
  split; [|split; [|split; [|split; [|split]]]].
  - apply in_map_iff; exists gid; split; [|apply Hiff; exact Hin].
    unfold group_msg; rewrite Hlt; unfold group_readings; rewrite length_map; reflexivity.
  - intros rl H; apply (Hno _ H); right; right; exists rl; reflexivity.
  - intro H; apply (Hno _ H); left; reflexivity.
  - intro H; apply (Hno _ H); right; left; reflexivity.
  - rewrite fixes_of_fold_in by (exact Hnd || apply Hiff; exact Hin).
    rewrite Hlt; reflexivity.
  - intro Hb.
    rewrite fixes_of_fold_in by (exact Hnd || apply Hiff; exact Hin).
    rewrite Hlt.
    destruct (fixes_of gid (fixes db)) as [|f fs] eqn:Hf; [reflexivity|exfalso].
    assert (Hne : fixes_of gid (fixes db) <> []) by (rewrite Hf; discriminate).
    pose proof (Hb gid Hne) as H2.
    pose proof (rows_of_app_length gid (raw db) rows) as H3.
    unfold group_readings in H1; rewrite length_map in H1; lia.
Qed.

Lemma C6_witness :
  exists s msgs,
    run_sync nofail env0 db0 single_batch = (s, Ok (RespSuccess msgs)) /\
    In (MsgSaved "g1" 1) msgs /\ fixes_of "g1" (fixes (committed s)) = [].
Proof.
  eexists _, _; split; [reflexivity|].
  destruct (C6_pending_below_two nofail env0 db0 single_batch [mk_row "g1" 0 0 0] _ _ "g1"
              env0_ok eq_refl eq_refl ltac:(left; reflexivity) ltac:(cbn; lia))
    as [Hm [_ [_ [_ [Hf _]]]]].
  split; [exact Hm|rewrite Hf; reflexivity].
Defined.

(** C9.  When a batch is handled successfully, every triangulation it runs
    for a group receives the readings of all raw rows stored for that group
    (rows of earlier batches first, then the batch's own rows), and every
    group of the batch with at least two rows on file is triangulated on
    exactly those readings. *)
Theorem C9_recompute_uses_all_rows (fails : DbOp -> bool) (E : Env) (db : Store)
  (batch : list Item) (rows : list RawBearing) (s : Sess) (msgs : list SyncMsg) :
  set_order_ok E ->
  mapM (make_raw E) batch = Ok rows ->
  run_sync fails E db batch = (s, Ok (RespSuccess msgs)) ->
  (forall g rl, In (EvSolve g rl) (trace s) ->
     rl = map reading_of (rows_of g (raw db ++ rows))) /\
  (forall g, In g (map rb_group_id rows) ->
     (2 <= List.length (rows_of g (raw db ++ rows)))%nat ->
     In (EvSolve g (map reading_of (rows_of g (raw db ++ rows)))) (trace s)).
Proof.
  intros HE Hr Hrun.
  destruct (run_sync_success fails E db batch rows s msgs Hr Hrun) as [-> _].
  cbn [trace]; split.
  - intros g rl H.
    destruct (run_trace_group_event E db rows (EvSolve g rl)) as [g' [_ Hg]];
      [intros g'; discriminate|intros n; discriminate|discriminate|exact H|].
    destruct (group_events_tagged E (raw db ++ rows) g' _ Hg) as [H'|[_ [H'|[H'|[H' _]]]]];
      try discriminate.
    injection H' as -> ->; reflexivity.
  - intros g Hg H2.
    destruct (order_of_spec E rows g HE) as [_ Hiff].
    apply (in_run_trace E db rows g); [apply Hiff; exact Hg|].
    assert (Hlt : Nat.ltb (List.length (group_readings (raw db ++ rows) g)) 2 = false)
      by (apply Nat.ltb_ge; unfold group_readings; rewrite length_map; exact H2).
    unfold group_events; rewrite Hlt; right; left; reflexivity.
Qed.

Lemma C9_witness :
  exists s msgs,
    run_sync nofail env0 db_prev later_batch = (s, Ok (RespSuccess msgs)) /\
    In (EvSolve "g1" [(0, 0, 0); (0, 1, 0)]) (trace s).
Proof.
  pose proof (run_sync_nofail env0 db_prev later_batch [mk_row "g1" 0 1 0] eq_refl) as Hrun.
  exists (fst (run_sync nofail env0 db_prev later_batch)),
    (map (group_msg env0 (raw db_prev ++ [mk_row "g1" 0 1 0]))
         (order_of env0 [mk_row "g1" 0 1 0])).
  assert (Hrun' : run_sync nofail env0 db_prev later_batch =
                  (fst (run_sync nofail env0 db_prev later_batch),
                   Ok (RespSuccess (map (group_msg env0 (raw db_prev ++ [mk_row "g1" 0 1 0]))
                                        (order_of env0 [mk_row "g1" 0 1 0])))))
    by (rewrite Hrun; reflexivity).
  split; [exact Hrun'|].
  exact (proj2 (C9_recompute_uses_all_rows nofail env0 db_prev later_batch
                  [mk_row "g1" 0 1 0] _ _ env0_ok eq_refl Hrun')
               "g1"%string ltac:(left; reflexivity) ltac:(cbn; lia)).
Defined.

(** ** Further properties of [perform_triangulation] *)

Lemma mapM_ok_map (P : Projection) (l : list Reading) (pts : list (R * R)) :
  mapM (project_reading P) l = Ok pts -> pts = map (proj_pt P) l.
Proof.
  revert pts; induction l as [|r l IH]; intros pts H; cbn in H.
  - inversion H; reflexivity.
  - destruct (project_reading P r) as [pt|e] eqn:Ep; [|discriminate]; cbn in H.
    destruct (mapM (project_reading P) l) as [ps|e]; [|discriminate]; cbn in H.
    inversion H; subst; cbn; unfold proj_pt at 1; rewrite Ep; f_equal; apply IH; reflexivity.
Qed.

Lemma combine_map {A B C} (f : A -> B) (g : A -> C) (l : list A) :
  combine (map f l) (map g l) = map (fun x => (f x, g x)) l.
Proof. induction l as [|a l IH]; cbn; [reflexivity|rewrite IH; reflexivity]. Qed.

Lemma system_map (P : Projection) (l : list Reading) (pts : list (R * R)) :
  mapM (project_reading P) l = Ok pts ->
  system_of pts l = (map (row_of P) l, map (rhs_of P) l).
Proof.
  intro H; rewrite (mapM_ok_map P l pts H); unfold system_of.
  rewrite build_system_eq, combine_map, !map_map; reflexivity.
Qed.

Lemma sum_rows_map (f : R * R -> R) (g : Reading -> R * R) (l : list Reading) :
  sum_rows f (map g l) = sumL (fun x => f (g x)) l.
Proof. induction l as [|a l IH]; cbn; [reflexivity|]. unfold sum_rows in IH; rewrite IH; reflexivity. Qed.

Lemma sum_rows_rhs_map (f : R * R -> R -> R) (g : Reading -> R * R) (h : Reading -> R)
  (l : list Reading) :
  sum_rows_rhs f (map g l) (map h l) = sumL (fun x => f (g x) (h x)) l.
Proof. induction l as [|a l IH]; cbn; [reflexivity|rewrite IH; reflexivity]. Qed.

Lemma lstsq_congr (P : Projection) (l l' : list Reading) :
  List.length l = List.length l' ->
  (forall F, sign_invariant F ->
     sumL (fun r => F (row_of P r) (rhs_of P r)) l =
     sumL (fun r => F (row_of P r) (rhs_of P r)) l') ->
  lstsq (map (row_of P) l) (map (rhs_of P) l) = lstsq (map (row_of P) l') (map (rhs_of P) l').
Proof.
  intros Hlen H.
  pose proof (H (fun a _ => fst a * fst a) ltac:(intros a b; cbn; ring)) as H1.
  pose proof (H (fun a _ => snd a * snd a) ltac:(intros a b; cbn; ring)) as H2.
  pose proof (H (fun a _ => fst a * snd a) ltac:(intros a b; cbn; ring)) as H3.
  pose proof (H (fun a b => fst a * b) ltac:(intros a b; cbn; ring)) as H4.
  pose proof (H (fun a b => snd a * b) ltac:(intros a b; cbn; ring)) as H5.
  assert (H6 : forall p,
    sumL (fun r => (rhs_of P r - (fst (row_of P r) * fst p + snd (row_of P r) * snd p))
                   * (rhs_of P r - (fst (row_of P r) * fst p + snd (row_of P r) * snd p))) l =
    sumL (fun r => (rhs_of P r - (fst (row_of P r) * fst p + snd (row_of P r) * snd p))
                   * (rhs_of P r - (fst (row_of P r) * fst p + snd (row_of P r) * snd p))) l').
  { intro p; exact (H (fun a b => (b - (fst a * fst p + snd a * snd p))
                                  * (b - (fst a * fst p + snd a * snd p)))
                      ltac:(intros a b; cbn; ring)). }
  cbv beta in H1, H2, H3, H4, H5.
  unfold lstsq, lstsq_solution, lstsq_rank, gram_det, rss.
  rewrite !sum_rows_map, !sum_rows_rhs_map, !length_map; cbv beta.
  rewrite H1, H2, H3, H4, H5, H6, Hlen.
  destruct l as [|r l]; destruct l' as [|r' l']; try discriminate; reflexivity.
Qed.

Lemma body_congr (P : Projection) (l l' : list Reading) (pts pts' : list (R * R)) :
  mapM (project_reading P) l = Ok pts ->
  mapM (project_reading P) l' = Ok pts' ->
  List.length l = List.length l' ->
  (forall F, sign_invariant F ->
     sumL (fun r => F (row_of P r) (rhs_of P r)) l =
     sumL (fun r => F (row_of P r) (rhs_of P r)) l') ->
  triangulation_body P l = triangulation_body P l'.
Proof.
  intros Hm Hm' Hlen H.
  pose proof (system_map P l pts Hm) as Hs; pose proof (system_map P l' pts' Hm') as Hs'.
  unfold system_of in Hs, Hs'.
  unfold triangulation_body; rewrite Hm, Hm'; cbn [exc_bind].
  rewrite Hs, Hs', (lstsq_congr P l l' Hlen H), Hlen; reflexivity.
Qed.

Lemma sumL_perm (F : Reading -> R) (l l' : list Reading) :
  Permutation l l' -> sumL F l = sumL F l'.
Proof. unfold sumL; induction 1; cbn in *; lra. Qed.

Lemma sumL_forall2 (F : Reading -> R) (l l' : list Reading) :
  Forall2 (fun r r' => F r = F r') l l' -> sumL F l = sumL F l'.
Proof. induction 1; [reflexivity|]; cbn; fold (sumL F l) (sumL F l'); rewrite H, IHForall2; reflexivity. Qed.

Lemma mapM_forall2 {A B} (f : A -> exc B) (l l' : list A) :
  Forall2 (fun a a' => f a = f a') l l' -> mapM f l = mapM f l'.
Proof. induction 1; cbn; [reflexivity|]; rewrite H, IHForall2; reflexivity. Qed.

Lemma mapM_all_ok {A B} (f : A -> exc B) (l : list A) :
  (forall a, In a l -> exists b, f a = Ok b) -> exists bs, mapM f l = Ok bs.
Proof.
  induction l as [|a l IH]; intro H; [exists []; reflexivity|].
  destruct (H a (or_introl eq_refl)) as [b Hb].
  destruct IH as [bs Hbs]; [intros a' Ha'; apply H; right; exact Ha'|].
  exists (b :: bs); cbn; rewrite Hb, Hbs; reflexivity.
Qed.

Lemma sin_cos_shift_sign (x : R) (k : Z) :
  exists s, (s = 1 \/ s = -1) /\
    sin (x + IZR k * PI) = s * sin x /\ cos (x + IZR k * PI) = s * cos x.
Proof.
  assert (Hk : (k = 2 * (k / 2) + k mod 2)%Z) by (apply Z.div_mod; lia).
  assert (Hm : (0 <= k mod 2 < 2)%Z) by (apply Z.mod_pos_bound; lia).
  assert (Hr : IZR k = 2 * IZR (k / 2) + IZR (k mod 2)).
  { rewrite Hk at 1; rewrite plus_IZR, mult_IZR; reflexivity. }
  rewrite Hr.
  replace (x + (2 * IZR (k / 2) + IZR (k mod 2)) * PI)
    with ((x + IZR (k mod 2) * PI) + 2 * IZR (k / 2) * PI) by ring.
  destruct (sin_cos_period_Z (x + IZR (k mod 2) * PI) (k / 2)) as [Hs Hc].
  rewrite Hs, Hc.
  assert (H01 : (k mod 2 = 0 \/ k mod 2 = 1)%Z) by lia.
  destruct H01 as [H0|H1].
  - exists 1; rewrite H0; replace (x + IZR 0 * PI) with x by (simpl; ring).
    split; [left; reflexivity|lra].
  - exists (-1); rewrite H1; replace (x + IZR 1 * PI) with (x + PI) by (simpl; ring).
    rewrite neg_sin, neg_cos; split; [right; reflexivity|lra].
Qed.

Lemma reversed_project (P : Projection) (r r' : Reading) :
  reversed r r' -> project_reading P r' = project_reading P r.
Proof. destruct r as [[lat lon] b]; intros [k ->]; reflexivity. Qed.

Lemma reversed_row (P : Projection) (r r' : Reading) :
  reversed r r' ->
  exists s, (s = 1 \/ s = -1) /\
    row_of P r' = (s * fst (row_of P r), s * snd (row_of P r)) /\
    rhs_of P r' = s * rhs_of P r.
Proof.
  intro Hr; pose proof (reversed_project P r r' Hr) as Hp.
  destruct r as [[lat lon] b]; destruct Hr as [k ->].
  unfold row_of, rhs_of, proj_pt; rewrite Hp; cbn [reading_bearing].
  destruct (project_reading P (lat, lon, b)) as [[x y]|e];
    unfold sys_row, sys_rhs, bearing_to_unit_vector; rewrite deg2rad_shift;
    destruct (sin_cos_shift_sign (deg2rad b) k) as [s [Hs [Hsin Hcos]]];
    rewrite Hsin, Hcos; exists s; cbn [fst snd]; (split; [exact Hs|split; [f_equal; ring|ring]]).
Qed.

Lemma sign_invariant_scale (F : R * R -> R -> R) (s : R) (a : R * R) (b : R) :
  sign_invariant F -> (s = 1 \/ s = -1) -> F (s * fst a, s * snd a) (s * b) = F a b.
Proof.
  intros HF [->| ->].
  - destruct a as [a1 a2]; cbn; rewrite !Rmult_1_l; reflexivity.
  - rewrite <- (HF a b); f_equal; [f_equal|]; ring.
Qed.

(** X1.  On an empty list of readings the code returns the error string
    ["Math Error: 1-dimensional array given. Array must be two-dimensional"]:
    [np.array([])] is one-dimensional and [np.linalg.lstsq] rejects it. *)
Theorem tri_empty_readings (P : Projection) :
  perform_triangulation P [] =
  inr ("Math Error: " ++ exn_str (LinAlgError "1-dimensional array given. Array must be two-dimensional"))%string.
Proof. reflexivity. Qed.

(** X2.  If the forward projection raises for one of the readings, the
    result is a ["Math Error: ..."] string, never a tuple. *)
Theorem tri_projection_failure (P : Projection) (readings : list Reading) (r : Reading) (e : Exn) :
  In r readings -> project_reading P r = Raise e ->
  exists msg, perform_triangulation P readings = inr ("Math Error: " ++ msg)%string.
Proof.
  intros Hin He; destruct (mapM_raise _ _ _ _ Hin He) as [e' He'].
  exists (exn_str e'); unfold perform_triangulation, triangulation_body; rewrite He'; reflexivity.
Qed.

(** X3.  Turning the bearing of any readings by whole multiples of 180
    degrees does not change the result: a bearing and its reverse give
    the same line. *)
Theorem tri_reversal_invariant (P : Projection) (l l' : list Reading) :
  Forall2 reversed l l' -> perform_triangulation P l' = perform_triangulation P l.
Proof.
  intro H.
  assert (Hm : mapM (project_reading P) l' = mapM (project_reading P) l).
  { symmetry; apply mapM_forall2.
    eapply Forall2_impl; [|exact H]; intros r r' Hr; symmetry; apply reversed_project; exact Hr. }
  unfold perform_triangulation.
  destruct (mapM (project_reading P) l) as [pts|e] eqn:E.
  - rewrite (body_congr P l' l pts pts); [reflexivity|exact Hm|exact E| |].
    + symmetry; apply (Forall2_length H).
    + intros F HF; symmetry; apply sumL_forall2.
      eapply Forall2_impl; [|exact H]; intros r r' Hr.
      destruct (reversed_row P r r' Hr) as [s [Hs [Hrow Hrhs]]].
      rewrite Hrow, Hrhs; symmetry; apply sign_invariant_scale; assumption.
  - unfold triangulation_body; rewrite Hm, E; reflexivity.
Qed.

(** X4.  When every reading projects, the result does not depend on the
    order of the readings. *)
Theorem tri_order_invariant (P : Projection) (l l' : list Reading) :
  Permutation l l' ->
  (forall r, In r l -> exists pt, project_reading P r = Ok pt) ->
  perform_triangulation P l' = perform_triangulation P l.
Proof.
  intros Hp Hok.
  destruct (mapM_all_ok _ l Hok) as [pts Hm].
  destruct (mapM_all_ok (project_reading P) l') as [pts' Hm'].
  { intros r Hr; apply Hok; apply (Permutation_in r (Permutation_sym Hp) Hr). }
  unfold perform_triangulation.
  rewrite (body_congr P l' l pts' pts Hm' Hm); [reflexivity| |].
  - symmetry; apply (Permutation_length Hp).
  - intros F _; symmetry; apply sumL_perm; exact Hp.
Qed.

Lemma sum_rows_cross (r : R * R) (A : list (R * R)) :
  sum_rows (fun a => cross2 r a * cross2 r a) A =
  fst r * fst r * sum_rows (fun a => snd a * snd a) A
  + snd r * snd r * sum_rows (fun a => fst a * fst a) A
  - 2 * fst r * snd r * sum_rows (fun a => fst a * snd a) A.
Proof. unfold sum_rows, cross2; induction A as [|a A IH]; cbn; [ring|rewrite IH; ring]. Qed.

Lemma gram_det_cons (r : R * R) (A : list (R * R)) :
  gram_det (r :: A) = gram_det A + sum_rows (fun a => cross2 r a * cross2 r a) A.
Proof. rewrite sum_rows_cross; unfold gram_det, sum_rows; cbn; ring. Qed.

Lemma sum_rows_nonneg (f : R * R -> R) (A : list (R * R)) :
  (forall a, 0 <= f a) -> 0 <= sum_rows f A.
Proof.
  intro Hf; unfold sum_rows; induction A as [|a A IH]; cbn; [lra|].
  pose proof (Hf a); lra.
Qed.

Lemma sum_rows_term (f : R * R -> R) (A : list (R * R)) (a : R * R) :
  (forall x, 0 <= f x) -> In a A -> f a <= sum_rows f A.
Proof.
  intros Hf Hin; induction A as [|x A IH]; [destruct Hin|].
  pose proof (sum_rows_nonneg f A Hf) as H0.
  unfold sum_rows in *; cbn.
  destruct Hin as [->|Hin]; [lra|]; pose proof (IH Hin); pose proof (Hf x); lra.
Qed.

Lemma gram_det_nonneg (A : list (R * R)) : 0 <= gram_det A.
Proof.
  induction A as [|r A IH]; [unfold gram_det, sum_rows; cbn; lra|].
  rewrite gram_det_cons.
  pose proof (sum_rows_nonneg (fun a => cross2 r a * cross2 r a) A
                (fun a => Rle_0_sqr (cross2 r a))); lra.
Qed.

Lemma gram_det_cross (A : list (R * R)) (a b : R * R) :
  In a A -> In b A -> cross2 a b * cross2 a b <= gram_det A.
Proof.
  induction A as [|r A IH]; intros Ha Hb; [destruct Ha|].
  rewrite gram_det_cons.
  pose proof (sum_rows_nonneg (fun x => cross2 r x * cross2 r x) A
                (fun x => Rle_0_sqr (cross2 r x))) as Hs.
  pose proof (gram_det_nonneg A) as Hg.
  assert (Hsq : forall x, 0 <= cross2 r x * cross2 r x) by (intro; apply Rle_0_sqr).
  destruct Ha as [->|Ha]; destruct Hb as [Hb|Hb].
  - subst b; replace (cross2 a a * cross2 a a) with 0 by (unfold cross2; ring); lra.
  - pose proof (sum_rows_term _ A b Hsq Hb); cbv beta in *; lra.
  - subst r; pose proof (sum_rows_term _ A a Hsq Ha); cbv beta in *.
    replace (cross2 a b * cross2 a b) with (cross2 b a * cross2 b a) by (unfold cross2; ring); lra.
  - pose proof (IH Ha Hb); lra.
Qed.

Lemma rss_shift (A : list (R * R)) (B : list R) (p q : R * R) :
  List.length A = List.length B ->
  rss A B q =
  rss A B p
  - 2 * ((fst q - fst p) * (sum_rows_rhs (fun r b => fst r * b) A B
                            - (sum_rows (fun r => fst r * fst r) A * fst p
                               + sum_rows (fun r => fst r * snd r) A * snd p))
         + (snd q - snd p) * (sum_rows_rhs (fun r b => snd r * b) A B
                              - (sum_rows (fun r => fst r * snd r) A * fst p
                                 + sum_rows (fun r => snd r * snd r) A * snd p)))
  + sum_rows (fun a => (fst a * (fst q - fst p) + snd a * (snd q - snd p))
                       * (fst a * (fst q - fst p) + snd a * (snd q - snd p))) A.
Proof.
  revert B; induction A as [|a A IH]; intros [|b B] Hl; try discriminate.
  - unfold rss, sum_rows; cbn; ring.
  - injection Hl as Hl; specialize (IH B Hl).
    unfold rss, sum_rows in *; cbn [sum_rows_rhs fold_right]; rewrite IH; ring.
Qed.

Lemma normal_equations (A : list (R * R)) (B : list R) :
  gram_det A <> 0 ->
  sum_rows_rhs (fun r b => fst r * b) A B
  - (sum_rows (fun r => fst r * fst r) A * fst (lstsq_solution A B)
     + sum_rows (fun r => fst r * snd r) A * snd (lstsq_solution A B)) = 0 /\
  sum_rows_rhs (fun r b => snd r * b) A B
  - (sum_rows (fun r => fst r * snd r) A * fst (lstsq_solution A B)
     + sum_rows (fun r => snd r * snd r) A * snd (lstsq_solution A B)) = 0.
Proof.
  intro Hg; unfold lstsq_solution, lstsq_rank.
  destruct (Req_EM_T (gram_det A) 0) as [H0|_]; [contradiction|]; cbv zeta; cbn [fst snd].
  unfold gram_det in *.
  set (saa := sum_rows (fun r => fst r * fst r) A) in *.
  set (sbb := sum_rows (fun r => snd r * snd r) A) in *.
  set (sab := sum_rows (fun r => fst r * snd r) A) in *.
  set (u := sum_rows_rhs (fun r b => fst r * b) A B).
  set (v := sum_rows_rhs (fun r b => snd r * b) A B).
  split; field; exact Hg.
Qed.

Lemma rank_two (A : list (R * R)) : gram_det A <> 0 -> lstsq_rank A = 2%nat.
Proof. intro H; unfold lstsq_rank; destruct (Req_EM_T (gram_det A) 0); [contradiction|reflexivity]. Qed.

Lemma lstsq_optimal (A : list (R * R)) (B : list R) (q : R * R) :
  List.length A = List.length B -> gram_det A <> 0 ->
  rss A B (lstsq_solution A B) <= rss A B q.
Proof.
  intros Hl Hg; rewrite (rss_shift A B (lstsq_solution A B) q Hl).
  destruct (normal_equations A B Hg) as [E1 E2]; rewrite E1, E2.
  pose proof (sum_rows_nonneg
    (fun a => (fst a * (fst q - fst (lstsq_solution A B)) + snd a * (snd q - snd (lstsq_solution A B)))
            * (fst a * (fst q - fst (lstsq_solution A B)) + snd a * (snd q - snd (lstsq_solution A B))))
    A (fun a => Rle_0_sqr _)); lra.
Qed.

Lemma row_of_eq (P : Projection) (r : Reading) :
  row_of P r = (cos (deg2rad (reading_bearing r)), - sin (deg2rad (reading_bearing r))).
Proof. reflexivity. Qed.

Lemma cross_rows (P : Projection) (r1 r2 : Reading) :
  cross2 (row_of P r1) (row_of P r2)
  = - sin (deg2rad (reading_bearing r2) - deg2rad (reading_bearing r1)).
Proof. rewrite !row_of_eq, sin_minus; unfold cross2; cbn [fst snd]; ring. Qed.

Lemma sumL_ext (F G : Reading -> R) (l : list Reading) :
  (forall r, F r = G r) -> sumL F l = sumL G l.
Proof. intro H; induction l as [|r l IH]; cbn; [reflexivity|]; fold (sumL F l) (sumL G l); rewrite H, IH; reflexivity. Qed.

Lemma system_gram (P : Projection) (readings : list Reading) (pts : list (R * R))
  (A : list (R * R)) (B : list R) (r1 r2 : Reading) :
  mapM (project_reading P) readings = Ok pts ->
  system_of pts readings = (A, B) ->
  In r1 readings -> In r2 readings ->
  sin (deg2rad (reading_bearing r2) - deg2rad (reading_bearing r1)) <> 0 ->
  A = map (row_of P) readings /\ B = map (rhs_of P) readings /\ gram_det A <> 0.
Proof.
  intros Hm Hs H1 H2 Hsin.
  rewrite (system_map P readings pts Hm) in Hs; injection Hs as <- <-.
  split; [reflexivity|split; [reflexivity|]].
  pose proof (gram_det_cross (map (row_of P) readings) (row_of P r1) (row_of P r2)
                (in_map _ _ _ H1) (in_map _ _ _ H2)) as Hc.
  rewrite cross_rows in Hc.
  assert (0 < sin (deg2rad (reading_bearing r2) - deg2rad (reading_bearing r1))
              * sin (deg2rad (reading_bearing r2) - deg2rad (reading_bearing r1)))
    by (apply Rsqr_pos_lt in Hsin; exact Hsin).
  replace (- sin (deg2rad (reading_bearing r2) - deg2rad (reading_bearing r1))
           * - sin (deg2rad (reading_bearing r2) - deg2rad (reading_bearing r1)))
    with (sin (deg2rad (reading_bearing r2) - deg2rad (reading_bearing r1))
          * sin (deg2rad (reading_bearing r2) - deg2rad (reading_bearing r1))) in Hc by ring.
  lra.
Qed.

(** X5.  If two of the readings have bearings that are not parallel, lstsq
    has rank 2 and its solution minimises the residual sum of squares,
    which is the sum of the squared distances from the point to the
    readings' bearing lines in the projected plane; when the solution
    projects back, the code returns it. *)
Theorem tri_least_squares (P : Projection) (readings : list Reading) (pts : list (R * R))
  (A : list (R * R)) (B : list R) (r1 r2 : Reading) :
  mapM (project_reading P) readings = Ok pts ->
  system_of pts readings = (A, B) ->
  In r1 readings -> In r2 readings ->
  sin (deg2rad (reading_bearing r2) - deg2rad (reading_bearing r1)) <> 0 ->
  lstsq_rank A = 2%nat /\
  (forall q, rss A B (lstsq_solution A B) <= rss A B q) /\
  (forall q, rss A B q =
     sumL (fun r => let '(x, y) := proj_pt P r in
                    let '(dx, dy) := bearing_to_unit_vector (reading_bearing r) in
                    (dy * (fst q - x) - dx * (snd q - y)) * (dy * (fst q - x) - dx * (snd q - y)))
          readings) /\
  (forall lon lat,
     to_ll P (fst (lstsq_solution A B)) (snd (lstsq_solution A B)) = Ok (lon, lat) ->
     exists err, perform_triangulation P readings = inl (lat, lon, err)).
Proof.
  intros Hm Hs H1 H2 Hsin.
  destruct (system_gram P readings pts A B r1 r2 Hm Hs H1 H2 Hsin) as [EA [EB Hg]].
  assert (Hl : List.length A = List.length B) by (rewrite EA, EB, !length_map; reflexivity).
  split; [apply rank_two; exact Hg|split; [|split]].
  - intro q; apply lstsq_optimal; assumption.
  - intro q; rewrite EA, EB; unfold rss; rewrite sum_rows_rhs_map; apply sumL_ext; intro r.
    unfold row_of, rhs_of, sys_row, sys_rhs.
    destruct (proj_pt P r) as [x y]; destruct (bearing_to_unit_vector (reading_bearing r)) as [dx dy].
    cbn [fst snd]; ring.
  - intros lon lat Hll; exists (code_score A B (List.length readings)).
    unfold perform_triangulation.
    rewrite (triangulation_body_sys P readings pts A B lon lat Hm Hs); [reflexivity| |exact Hll].
    rewrite EA; destruct readings; [destruct H1|discriminate].
Qed.

(** X6.  For two readings with non-parallel bearings (and a back-projection
    that does not raise) the code returns the back-projection of the
    intersection point of the two bearing lines, with error score 0; that
    point is the only one on both lines. *)
Theorem tri_two_lines (P : Projection) (r1 r2 : Reading) (x1 y1 x2 y2 : R) :
  project_reading P r1 = Ok (x1, y1) ->
  project_reading P r2 = Ok (x2, y2) ->
  sin (deg2rad (reading_bearing r2) - deg2rad (reading_bearing r1)) <> 0 ->
  (forall x y, exists ll, to_ll P x y = Ok ll) ->
  exists x y lat lon,
    to_ll P x y = Ok (lon, lat) /\
    perform_triangulation P [r1; r2] = inl (lat, lon, 0) /\
    snd (bearing_to_unit_vector (reading_bearing r1)) * (x - x1)
      = fst (bearing_to_unit_vector (reading_bearing r1)) * (y - y1) /\
    snd (bearing_to_unit_vector (reading_bearing r2)) * (x - x2)
      = fst (bearing_to_unit_vector (reading_bearing r2)) * (y - y2) /\
    (forall x' y',
       snd (bearing_to_unit_vector (reading_bearing r1)) * (x' - x1)
         = fst (bearing_to_unit_vector (reading_bearing r1)) * (y' - y1) ->
       snd (bearing_to_unit_vector (reading_bearing r2)) * (x' - x2)
         = fst (bearing_to_unit_vector (reading_bearing r2)) * (y' - y2) ->
       x' = x /\ y' = y).
Proof.
  intros Hp1 Hp2 Hsin Hll.
  assert (Hm : mapM (project_reading P) [r1; r2] = Ok [(x1, y1); (x2, y2)])
    by (cbn; rewrite Hp1, Hp2; reflexivity).
  destruct (system_of [(x1, y1); (x2, y2)] [r1; r2]) as [A B] eqn:Hs.
  destruct (system_gram P [r1; r2] _ A B r1 r2 Hm Hs (or_introl eq_refl)
              (or_intror (or_introl eq_refl)) Hsin) as [EA [EB Hg]].
  pose proof (normal_equations A B Hg) as [N1 N2].
  set (p := lstsq_solution A B) in *.
  destruct (Hll (fst p) (snd p)) as [[lon lat] Hl].
  exists (fst p), (snd p), lat, lon.
  assert (Hpt1 : proj_pt P r1 = (x1, y1)) by (unfold proj_pt; rewrite Hp1; reflexivity).
  assert (Hpt2 : proj_pt P r2 = (x2, y2)) by (unfold proj_pt; rewrite Hp2; reflexivity).
  set (c1 := cos (deg2rad (reading_bearing r1))); set (s1 := sin (deg2rad (reading_bearing r1))).
  set (c2 := cos (deg2rad (reading_bearing r2))); set (s2 := sin (deg2rad (reading_bearing r2))).
  assert (HD : c1 * s2 - c2 * s1 <> 0).
  { intro H; apply Hsin; rewrite sin_minus; fold c1 s1 c2 s2; lra. }
  assert (Erow1 : row_of P r1 = (c1, - s1)) by apply row_of_eq.
  assert (Erow2 : row_of P r2 = (c2, - s2)) by apply row_of_eq.
  assert (Erhs1 : rhs_of P r1 = c1 * x1 - s1 * y1)
    by (unfold rhs_of, sys_rhs; rewrite Hpt1; reflexivity).
  assert (Erhs2 : rhs_of P r2 = c2 * x2 - s2 * y2)
    by (unfold rhs_of, sys_rhs; rewrite Hpt2; reflexivity).
  rewrite EA, EB in N1, N2; cbn [map] in N1, N2.
  rewrite Erow1, Erow2, Erhs1, Erhs2 in N1, N2.
  unfold sum_rows in N1, N2; cbn [fold_right sum_rows_rhs fst snd] in N1, N2.
  set (e1 := c1 * x1 - s1 * y1 - (c1 * fst p - s1 * snd p)).
  set (e2 := c2 * x2 - s2 * y2 - (c2 * fst p - s2 * snd p)).
  assert (F1 : c1 * e1 + c2 * e2 = 0) by (unfold e1, e2; lra).
  assert (F2 : s1 * e1 + s2 * e2 = 0) by (unfold e1, e2; lra).
  assert (Z1 : e1 = 0).
  { assert (H : e1 * (c1 * s2 - c2 * s1) = s2 * (c1 * e1 + c2 * e2) - c2 * (s1 * e1 + s2 * e2))
      by ring.
    rewrite F1, F2 in H; replace (s2 * 0 - c2 * 0) with 0 in H by ring.
    destruct (Rmult_integral _ _ H); [assumption|contradiction]. }
  assert (Z2 : e2 = 0).
  { assert (H : e2 * (c1 * s2 - c2 * s1) = c1 * (s1 * e1 + s2 * e2) - s1 * (c1 * e1 + c2 * e2))
      by ring.
    rewrite F1, F2 in H; replace (c1 * 0 - s1 * 0) with 0 in H by ring.
    destruct (Rmult_integral _ _ H); [assumption|contradiction]. }
  unfold bearing_to_unit_vector; cbn [fst snd]; fold c1 s1 c2 s2.
  split; [exact Hl|split; [|split; [unfold e1 in Z1; lra|split; [unfold e2 in Z2; lra|]]]].
  - unfold perform_triangulation.
    rewrite (triangulation_body_sys P [r1; r2] _ A B lon lat Hm Hs); [| |exact Hl].
    + unfold code_score.
      replace (Nat.ltb 2 (List.length A)) with false by (rewrite EA; reflexivity).
      rewrite andb_false_r; reflexivity.
    + rewrite EA; discriminate.
  - intros x' y' L1 L2.
    assert (G1 : c1 * (x' - fst p) = s1 * (y' - snd p)) by (unfold e1 in Z1; lra).
    assert (G2 : c2 * (x' - fst p) = s2 * (y' - snd p)) by (unfold e2 in Z2; lra).
    assert (Hx : (x' - fst p) * (c1 * s2 - c2 * s1) = 0).
    { replace ((x' - fst p) * (c1 * s2 - c2 * s1))
        with (s2 * (c1 * (x' - fst p)) - s1 * (c2 * (x' - fst p))) by ring.
      rewrite G1, G2; ring. }
    assert (Hy : (y' - snd p) * (c1 * s2 - c2 * s1) = 0).
    { replace ((y' - snd p) * (c1 * s2 - c2 * s1))
        with (c1 * (s2 * (y' - snd p)) - c2 * (s1 * (y' - snd p))) by ring.
      rewrite <- G1, <- G2; ring. }
    destruct (Rmult_integral _ _ Hx) as [Hx'|]; [|contradiction].
    destruct (Rmult_integral _ _ Hy) as [Hy'|]; [|contradiction].
    split; lra.
Qed.

Lemma cross_sin : sin (deg2rad (reading_bearing (0, 1, 90)) - deg2rad (reading_bearing (0, 0, 0))) <> 0.
Proof.
  cbn [reading_bearing]; rewrite deg2rad_0.
  replace (deg2rad 90 - 0) with (PI / 2) by (unfold deg2rad; field).
  rewrite sin_PI2; lra.
Qed.

Lemma tri_projection_failure_witness :
  In ((0, 0, 0) : Reading) [(0, 0, 0)] /\
  project_reading failing_projection (0, 0, 0) = Raise ProjectionError /\
  exists msg, perform_triangulation failing_projection [(0, 0, 0)] = inr ("Math Error: " ++ msg)%string.
Proof.
  split; [left; reflexivity|split; [reflexivity|]].
  apply (tri_projection_failure failing_projection [(0, 0, 0)] (0, 0, 0) ProjectionError);
    [left; reflexivity|reflexivity].
Defined.

Lemma tri_reversal_invariant_witness :
  Forall2 reversed cross_readings [(0, 0, 180); (0, 1, -90)] /\
  perform_triangulation flat_projection [(0, 0, 180); (0, 1, -90)] =
  perform_triangulation flat_projection cross_readings.
Proof.
  assert (H : Forall2 reversed cross_readings [(0, 0, 180); (0, 1, -90)]).
  { constructor; [|constructor; [|constructor]]; cbn.
    - exists 1%Z; f_equal; cbn; ring.
    - exists (-1)%Z; f_equal; cbn; ring. }
  split; [exact H|apply tri_reversal_invariant; exact H].
Defined.

Lemma tri_order_invariant_witness :
  Permutation cross_readings [(0, 1, 90); (0, 0, 0)] /\
  (forall r, In r cross_readings -> exists pt, project_reading flat_projection r = Ok pt) /\
  perform_triangulation flat_projection [(0, 1, 90); (0, 0, 0)] =
  perform_triangulation flat_projection cross_readings.
Proof.
  assert (Hp : Permutation cross_readings [(0, 1, 90); (0, 0, 0)]) by apply perm_swap.
  assert (Hok : forall r, In r cross_readings -> exists pt, project_reading flat_projection r = Ok pt).
  { intros [[la lo] b] _; eexists; reflexivity. }
  split; [exact Hp|split; [exact Hok|]].
  apply tri_order_invariant; assumption.
Defined.

Lemma tri_least_squares_witness :
  mapM (project_reading flat_projection) cross_readings = Ok cross_points /\
  sin (deg2rad (reading_bearing (0, 1, 90)) - deg2rad (reading_bearing (0, 0, 0))) <> 0 /\
  lstsq_rank (fst (system_of cross_points cross_readings)) = 2%nat /\
  (forall q, rss (fst (system_of cross_points cross_readings))
                 (snd (system_of cross_points cross_readings))
                 (lstsq_solution (fst (system_of cross_points cross_readings))
                                 (snd (system_of cross_points cross_readings)))
             <= rss (fst (system_of cross_points cross_readings))
                    (snd (system_of cross_points cross_readings)) q).
Proof.
  assert (Hm : mapM (project_reading flat_projection) cross_readings = Ok cross_points)
    by reflexivity.
  split; [exact Hm|split; [exact cross_sin|]].
  destruct (tri_least_squares flat_projection cross_readings cross_points
              (fst (system_of cross_points cross_readings))
              (snd (system_of cross_points cross_readings)) (0, 0, 0) (0, 1, 90)
              Hm (surjective_pairing _) (or_introl eq_refl) (or_intror (or_introl eq_refl))
              cross_sin) as [Hr [Ho _]].
  split; [exact Hr|exact Ho].
Defined.

Lemma tri_two_lines_witness :
  project_reading flat_projection (0, 0, 0) = Ok (0, 0) /\
  project_reading flat_projection (0, 1, 90) = Ok (1, 0) /\
  sin (deg2rad (reading_bearing (0, 1, 90)) - deg2rad (reading_bearing (0, 0, 0))) <> 0 /\
  exists x y lat lon,
    to_ll flat_projection x y = Ok (lon, lat) /\
    perform_triangulation flat_projection cross_readings = inl (lat, lon, 0).
Proof.
  split; [reflexivity|split; [reflexivity|split; [exact cross_sin|]]].
  destruct (tri_two_lines flat_projection (0, 0, 0) (0, 1, 90) 0 0 1 0 eq_refl eq_refl
              cross_sin flat_to_ll_total) as [x [y [lat [lon [Hl [Hp _]]]]]].
  exists x, y, lat, lon; split; [exact Hl|exact Hp].
Defined.

(** ** Further properties of the [/sync] handler *)

Lemma mapM_in {A B} (f : A -> exc B) (l : list A) (l' : list B) (y : B) :
  mapM f l = Ok l' -> In y l' -> exists x, In x l /\ f x = Ok y.
Proof.
  revert l'; induction l as [|x l IH]; intros l' H Hy; cbn in H.
  - inversion H; subst; destruct Hy.
  - destruct (f x) as [b|e] eqn:Ex; [|discriminate]; cbn in H.
    destruct (mapM f l) as [bs|e] eqn:El; [|discriminate]; cbn in H.
    inversion H; subst; destruct Hy as [<-|Hy].
    + exists x; split; [left; reflexivity|exact Ex].
    + destruct (IH bs eq_refl Hy) as [x' [Hx' Hf]]; exists x'; split; [right; exact Hx'|exact Hf].
Qed.

Lemma mapM_in_rev {A B} (f : A -> exc B) (l : list A) (l' : list B) (x : A) (y : B) :
  mapM f l = Ok l' -> In x l -> f x = Ok y -> In y l'.
Proof.
  revert l'; induction l as [|x' l IH]; intros l' H Hx Hf; cbn in H; [destruct Hx|].
  destruct (f x') as [b|e] eqn:Ex; [|discriminate]; cbn in H.
  destruct (mapM f l) as [bs|e] eqn:El; [|discriminate]; cbn in H.
  inversion H; subst; destruct Hx as [<-|Hx].
  - rewrite Hf in Ex; inversion Ex; left; reflexivity.
  - right; exact (IH bs eq_refl Hx Hf).
Qed.

Lemma mapM_raise_same {A B} (f : A -> exc B) (l : list A) (x : A) (e0 : Exn) :
  (forall a e, f a = Raise e -> e = e0) -> In x l -> f x = Raise e0 -> mapM f l = Raise e0.
Proof.
  intros Hall Hin Hx; induction l as [|a l IH]; [destruct Hin|]; cbn.
  destruct (f a) as [b|e] eqn:Ea; cbn.
  - destruct Hin as [<-|Hin]; [congruence|rewrite (IH Hin); reflexivity].
  - rewrite (Hall a e Ea); reflexivity.
Qed.

Lemma batch_group_ids (E : Env) (batch : list Item) (rows : list RawBearing) (g : string) :
  mapM (make_raw E) batch = Ok rows ->
  In g (map rb_group_id rows) <-> exists it, In it batch /\ i_group_id it = Some g.
Proof.
  intro Hr; pose proof (make_raw_group_ids E batch rows Hr) as Hg; split.
  - intro Hin; destruct (mapM_in _ _ _ _ Hg Hin) as [it [Hit Hk]].
    exists it; split; [exact Hit|]; unfold key in Hk.
    destruct (i_group_id it); inversion Hk; reflexivity.
  - intros [it [Hit Hk]]; apply (mapM_in_rev _ _ _ it g Hg Hit).
    rewrite Hk; reflexivity.
Qed.

Lemma run_sync_ok_rows (fails : DbOp -> bool) (E : Env) (db : Store) (batch : list Item)
  (s : Sess) (msgs : list SyncMsg) :
  run_sync fails E db batch = (s, Ok (RespSuccess msgs)) ->
  exists rows, mapM (make_raw E) batch = Ok rows.
Proof.
  intro H; destruct (mapM (make_raw E) batch) as [rows|e] eqn:Hr; [exists rows; reflexivity|].
  destruct (run_sync_raise fails E db batch e Hr) as [s' [m [H' _]]]; congruence.
Qed.

Lemma rows_of_none (g : string) (rows : list RawBearing) :
  ~ In g (map rb_group_id rows) -> rows_of g rows = [].
Proof.
  unfold rows_of; induction rows as [|r rows IH]; intro Hn; cbn; [reflexivity|].
  destruct (String.eqb (rb_group_id r) g) eqn:E.
  - apply String.eqb_eq in E; exfalso; apply Hn; left; exact E.
  - apply IH; intro H; apply Hn; right; exact H.
Qed.

Lemma rows_of_app (g : string) (l1 l2 : list RawBearing) :
  rows_of g (l1 ++ l2) = rows_of g l1 ++ rows_of g l2.
Proof. unfold rows_of; apply filter_app. Qed.

Lemma msg_group_of (E : Env) (rs : list RawBearing) (g : string) :
  msg_group (group_msg E rs g) = g.
Proof.
  unfold group_msg; destruct (Nat.ltb _ 2); [reflexivity|].
  destruct (perform_triangulation _ _) as [[[lat lon] err]|m]; reflexivity.
Qed.

Lemma set_order_nil (E : Env) : set_order_ok E -> set_order E [] = [].
Proof.
  intro HE; destruct (HE []) as [_ Hin].
  destruct (set_order E []) as [|x l] eqn:Es; [reflexivity|].
  exfalso; apply (proj1 (Hin x)); left; reflexivity.
Qed.

Lemma replace_Z_app (s1 s2 : string) :
  replace_Z (s1 ++ s2) = (replace_Z s1 ++ replace_Z s2)%string.
Proof.
  induction s1 as [|c s1 IH]; cbn; [reflexivity|].
  destruct (Ascii.eqb c "Z"%char); rewrite IH; reflexivity.
Qed.

(** X7.  A request never changes the raw rows or the Fix rows of a group
    that no item of the batch names, whatever database operation fails. *)
Theorem sync_frame (fails : DbOp -> bool) (E : Env) (db : Store) (batch : list Item) (g : string) :
  set_order_ok E ->
  (forall it, In it batch -> i_group_id it <> Some g) ->
  rows_of g (raw (committed (fst (run_sync fails E db batch)))) = rows_of g (raw db) /\
  fixes_of g (fixes (committed (fst (run_sync fails E db batch)))) = fixes_of g (fixes db).
Proof.
  intros HE Hg.
  destruct (mapM (make_raw E) batch) as [rows|e] eqn:Hr.
  2:{ destruct (run_sync_raise fails E db batch e Hr) as [s [m [-> Hc]]]; cbn; rewrite Hc.
      split; reflexivity. }
  assert (Hn : ~ In g (map rb_group_id rows)).
  { intro Hin; apply (batch_group_ids E batch rows g Hr) in Hin.
    destruct Hin as [it [Hit Hk]]; exact (Hg it Hit Hk). }
  assert (Hrows : rows_of g (raw db ++ rows) = rows_of g (raw db)).
  { rewrite rows_of_app, (rows_of_none g rows Hn), app_nil_r; reflexivity. }
  destruct (run_sync_shape fails E db batch) as [[Heq _]|[s [m [Heq Hc]]]]; rewrite Heq.
  - rewrite (run_sync_nofail E db batch rows Hr); cbn [fst committed final_store raw fixes].
    split; [exact Hrows|].
    apply fixes_of_fold_notin; intro Hin.
    apply (proj2 (order_of_spec E rows g HE)) in Hin; contradiction.
  - cbn [fst]; destruct Hc as [-> |[rows' [Hr' [_ ->]]]]; [split; reflexivity|].
    rewrite Hr in Hr'; inversion Hr'; subst rows'; cbn; split; [exact Hrows|reflexivity].
Qed.

(** X8.  A success response holds one message per distinct [group_id] of
    the batch: no group is reported twice and every group is reported. *)
Theorem sync_messages_per_group (fails : DbOp -> bool) (E : Env) (db : Store) (batch : list Item)
  (s : Sess) (msgs : list SyncMsg) :
  set_order_ok E ->
  run_sync fails E db batch = (s, Ok (RespSuccess msgs)) ->
  NoDup (map msg_group msgs) /\
  forall g, In g (map msg_group msgs) <-> exists it, In it batch /\ i_group_id it = Some g.
Proof.
  intros HE H.
  destruct (run_sync_ok_rows fails E db batch s msgs H) as [rows Hr].
  destruct (run_sync_success fails E db batch rows s msgs Hr H) as [_ ->].
  rewrite map_map.
  rewrite (map_ext _ (fun g => g) (msg_group_of E (raw db ++ rows))), map_id.
  split; [exact (proj1 (order_of_spec E rows EmptyString HE))|intro g].
  rewrite (proj2 (order_of_spec E rows g HE)); exact (batch_group_ids E batch rows g Hr).
Qed.

(** X9.  A Fix computed by a successful run carries the computed latitude
    and longitude, [datetime.utcnow()], the two-line note exactly when the
    group has two observations on file, and the [pango_id] of the group's
    oldest stored observation (from an earlier batch when there is one);
    the response reports the error score. *)
Theorem sync_fix_metadata (fails : DbOp -> bool) (E : Env) (db : Store) (batch : list Item)
  (rows : list RawBearing) (s : Sess) (msgs : list SyncMsg) (gid : string) (lat lon err : R) :
  set_order_ok E ->
  mapM (make_raw E) batch = Ok rows ->
  run_sync fails E db batch = (s, Ok (RespSuccess msgs)) ->
  In gid (map rb_group_id rows) ->
  (2 <= List.length (rows_of gid (raw db ++ rows)))%nat ->
  perform_triangulation (proj E) (group_readings (raw db ++ rows) gid) = inl (lat, lon, err) ->
  exists f,
    fixes_of gid (fixes (committed s)) = [f] /\
    fx_calc_lat f = lat /\ fx_calc_lon f = lon /\ fx_timestamp f = utcnow E /\
    fx_note f = (if Nat.eqb (List.length (rows_of gid (raw db ++ rows))) 2
                 then NoteTwoLine else NoteErr err) /\
    fx_pango_id f = first_pango (rows_of gid (raw db ++ rows)) /\
    (forall r0 rest, rows_of gid (raw db) = r0 :: rest -> fx_pango_id f = rb_pango_id r0) /\
    In (MsgFix gid err) msgs.
Proof.
  intros HE Hr H Hin Hlen Hp.
  destruct (run_sync_success fails E db batch rows s msgs Hr H) as [-> ->].
  pose proof (proj1 (order_of_spec E rows gid HE)) as Hnd.
  pose proof (proj2 (proj2 (order_of_spec E rows gid HE)) Hin) as Hord.
  assert (Hl : Nat.ltb (List.length (group_readings (raw db ++ rows) gid)) 2 = false).
  { unfold group_readings; rewrite length_map; apply Nat.ltb_ge; exact Hlen. }
  exists (make_fix E gid (rows_of gid (raw db ++ rows)) lat lon err).
  split; [|split; [reflexivity|split; [reflexivity|split; [reflexivity|split]]]].
  - cbn [committed final_store fixes].
    rewrite (fixes_of_fold_in E _ _ _ gid Hnd Hord), Hl.
    unfold new_fixes; rewrite Hp; reflexivity.
  - unfold make_fix; cbn [fx_note].
    destruct (Nat.eqb _ 2) eqn:E2.
    + apply Nat.eqb_eq in E2; rewrite E2; reflexivity.
    + apply Nat.eqb_neq in E2.
      replace (Nat.ltb 2 _) with true; [reflexivity|symmetry; apply Nat.ltb_lt; lia].
  - split; [reflexivity|split].
    + intros r0 rest Hrs; unfold make_fix; cbn [fx_pango_id].
      rewrite rows_of_app, Hrs; reflexivity.
    + apply in_map_iff; exists gid; split; [|exact Hord].
      unfold group_msg; rewrite Hl, Hp; reflexivity.
Qed.

(** X10.  Raw observations are not deduplicated: sending the same batch
    twice with success stores its rows twice. *)
Theorem sync_resubmit_duplicates (fails1 fails2 : DbOp -> bool) (E : Env) (db : Store)
  (batch : list Item) (rows : list RawBearing) (s1 s2 : Sess) (m1 m2 : list SyncMsg) :
  mapM (make_raw E) batch = Ok rows ->
  run_sync fails1 E db batch = (s1, Ok (RespSuccess m1)) ->
  run_sync fails2 E (committed s1) batch = (s2, Ok (RespSuccess m2)) ->
  raw (committed s2) = raw db ++ rows ++ rows /\
  forall g, List.length (rows_of g (raw (committed s2))) =
            (List.length (rows_of g (raw db)) + 2 * List.length (rows_of g rows))%nat.
Proof.
  intros Hr H1 H2.
  destruct (run_sync_success fails1 E db batch rows s1 m1 Hr H1) as [-> _].
  destruct (run_sync_success fails2 E _ batch rows s2 m2 Hr H2) as [-> _].
  cbn [committed final_store raw]; rewrite <- app_assoc.
  split; [reflexivity|intro g].
  rewrite !rows_of_app, !length_app; lia.
Qed.

(** X11.  An empty batch leaves the database as it was, and the response
    is a success with no messages when neither commit fails. *)
Theorem sync_empty_batch (fails : DbOp -> bool) (E : Env) (db : Store) :
  set_order_ok E ->
  committed (fst (run_sync fails E db [])) = db /\
  (fails OpCommitRaw = false -> fails OpCommitFinal = false ->
   snd (run_sync fails E db []) = Ok (RespSuccess [])).
Proof.
  intro HE; pose proof (set_order_nil E HE) as Hs.
  destruct db as [rw fx].
  unfold run_sync, sync_data, catch, lift, db_commit, db_guard, db_rollback,
    modify_working, log, ret, bind; cbn -[process_groups].
  rewrite !app_nil_r, Hs; cbn.
  destruct (fails OpCommitRaw); cbn; [split; [reflexivity|discriminate]|].
  destruct (fails OpCommitFinal); cbn; [split; [reflexivity|intros _; discriminate]|].
  split; reflexivity.
Qed.

(** X12.  If some item lacks [group_id], the request fails with the
    [KeyError] for ['group_id'] (even when an earlier item lacks another
    key, as the groups are collected first) and the database is unchanged. *)
Theorem sync_missing_group_id (fails : DbOp -> bool) (E : Env) (db : Store) (batch : list Item)
  (it : Item) :
  In it batch -> i_group_id it = None ->
  exists s, run_sync fails E db batch = (s, Ok (RespError (exn_str (KeyError "group_id")))) /\
            committed s = db.
Proof.
  intros Hin Hg.
  assert (Hk : mapM (fun it => key "group_id" (i_group_id it)) batch =
               Raise (KeyError "group_id")).
  { apply (mapM_raise_same _ batch it); [|exact Hin|rewrite Hg; reflexivity].
    intros a e Ha; unfold key in Ha; destruct (i_group_id a); inversion Ha; reflexivity. }
  unfold run_sync, sync_data, catch, lift, db_rollback, log, ret, bind.
  rewrite Hk; cbn; eexists; split; reflexivity.
Qed.

(** X13.  [item['time'].replace('Z', '+00:00')] leaves a string without [Z]
    unchanged and turns a trailing [Z] into [+00:00]. *)
Theorem timestamp_suffix_Z (s : string) :
  ~ In "Z"%char (list_ascii_of_string s) ->
  replace_Z s = s /\ replace_Z (s ++ "Z") = (s ++ "+00:00")%string.
Proof.
  intro Hn.
  assert (Hs : replace_Z s = s).
  { induction s as [|c s IH]; cbn; [reflexivity|].
    cbn in Hn; destruct (Ascii.eqb c "Z"%char) eqn:Ec.
    - apply Ascii.eqb_eq in Ec; exfalso; apply Hn; left; exact Ec.
    - rewrite IH; [reflexivity|intro H; apply Hn; right; exact H]. }
  split; [exact Hs|rewrite replace_Z_app, Hs; reflexivity].
Qed.

Lemma sync_frame_witness :
  set_order_ok env0 /\
  (forall it, In it pair_batch -> i_group_id it <> Some "g2"%string) /\
  rows_of "g2" (raw (committed (fst (run_sync final_commit_fails env0 db_g2 pair_batch)))) =
    rows_of "g2" (raw db_g2) /\
  fixes_of "g2" (fixes (committed (fst (run_sync final_commit_fails env0 db_g2 pair_batch)))) =
    fixes_of "g2" (fixes db_g2).
Proof.
  assert (Hg : forall it, In it pair_batch -> i_group_id it <> Some "g2"%string).
  { intros it [<-|[<-|[]]]; cbn; intro H; inversion H. }
  split; [exact env0_ok|split; [exact Hg|]].
  apply sync_frame; [exact env0_ok|exact Hg].
Defined.

Lemma sync_messages_per_group_witness :
  exists s msgs,
    run_sync nofail env0 db0 two_group_batch = (s, Ok (RespSuccess msgs)) /\
    NoDup (map msg_group msgs) /\
    forall g, In g (map msg_group msgs) <->
              exists it, In it two_group_batch /\ i_group_id it = Some g.
Proof.
  pose proof (run_sync_nofail env0 db0 two_group_batch two_group_rows eq_refl) as Hrun.
  exists (fst (run_sync nofail env0 db0 two_group_batch)),
    (map (group_msg env0 (raw db0 ++ two_group_rows)) (order_of env0 two_group_rows)).
  assert (Hrun' : run_sync nofail env0 db0 two_group_batch =
                  (fst (run_sync nofail env0 db0 two_group_batch),
                   Ok (RespSuccess (map (group_msg env0 (raw db0 ++ two_group_rows))
                                        (order_of env0 two_group_rows)))))
    by (rewrite Hrun; reflexivity).
  split; [exact Hrun'|].
  exact (sync_messages_per_group nofail env0 db0 two_group_batch _ _ env0_ok Hrun').
Defined.

Lemma sync_fix_metadata_witness :
  exists s msgs lat lon,
    run_sync nofail env0 db0 pair_batch = (s, Ok (RespSuccess msgs)) /\
    exists f, fixes_of "g1" (fixes (committed s)) = [f] /\ fx_calc_lat f = lat /\
              fx_calc_lon f = lon /\ fx_timestamp f = utcnow env0 /\
              In (MsgFix "g1" 0) msgs.
Proof.
  destruct (parallel_returns_location flat_projection [(0, 0, 0); (0, 1, 0)]
              [(0, 0); (1, 0)] 0 eq_refl ltac:(discriminate) flat_to_ll_total)
    as [lat [lon Ht]].
  { intros r [<-|[<-|[]]]; exists 0%Z; simpl; ring. }
  pose proof (run_sync_nofail env0 db0 pair_batch pair_rows (pair_batch_rows env0 eq_refl))
    as Hrun.
  exists (fst (run_sync nofail env0 db0 pair_batch)),
    (map (group_msg env0 (raw db0 ++ pair_rows)) (order_of env0 pair_rows)), lat, lon.
  assert (Hrun' : run_sync nofail env0 db0 pair_batch =
                  (fst (run_sync nofail env0 db0 pair_batch),
                   Ok (RespSuccess (map (group_msg env0 (raw db0 ++ pair_rows))
                                        (order_of env0 pair_rows)))))
    by (rewrite Hrun; reflexivity).
  split; [exact Hrun'|].
  destruct (sync_fix_metadata nofail env0 db0 pair_batch pair_rows _ _ "g1" lat lon 0
              env0_ok (pair_batch_rows env0 eq_refl) Hrun'
              ltac:(left; reflexivity) ltac:(cbn; lia) Ht)
    as [f [Hf [Hlat [Hlon [Hts [_ [_ [_ Hmsg]]]]]]]].
  exists f; split; [exact Hf|split; [exact Hlat|split; [exact Hlon|split; [exact Hts|exact Hmsg]]]].
Defined.

Lemma sync_resubmit_duplicates_witness :
  exists s1 m1 s2 m2,
    run_sync nofail env0 db0 single_batch = (s1, Ok (RespSuccess m1)) /\
    run_sync nofail env0 (committed s1) single_batch = (s2, Ok (RespSuccess m2)) /\
    raw (committed s2) = [mk_row "g1" 0 0 0; mk_row "g1" 0 0 0].
Proof.
  set (rows := [mk_row "g1" 0 0 0]).
  pose proof (run_sync_nofail env0 db0 single_batch rows eq_refl) as Hrun1.
  pose proof (run_sync_nofail env0 (final_store env0 db0 rows) single_batch rows eq_refl) as Hrun2.
  exists (fst (run_sync nofail env0 db0 single_batch)),
    (map (group_msg env0 (raw db0 ++ rows)) (order_of env0 rows)),
    (fst (run_sync nofail env0 (final_store env0 db0 rows) single_batch)),
    (map (group_msg env0 (raw (final_store env0 db0 rows) ++ rows)) (order_of env0 rows)).
  assert (H1 : run_sync nofail env0 db0 single_batch =
               (fst (run_sync nofail env0 db0 single_batch),
                Ok (RespSuccess (map (group_msg env0 (raw db0 ++ rows)) (order_of env0 rows)))))
    by (rewrite Hrun1; reflexivity).
  assert (Hc : committed (fst (run_sync nofail env0 db0 single_batch)) = final_store env0 db0 rows)
    by (rewrite Hrun1; reflexivity).
  assert (H2 : run_sync nofail env0 (committed (fst (run_sync nofail env0 db0 single_batch)))
                 single_batch =
               (fst (run_sync nofail env0 (final_store env0 db0 rows) single_batch),
                Ok (RespSuccess (map (group_msg env0 (raw (final_store env0 db0 rows) ++ rows))
                                     (order_of env0 rows)))))
    by (rewrite Hc, Hrun2; reflexivity).
  split; [exact H1|split; [exact H2|]].
  rewrite (proj1 (sync_resubmit_duplicates nofail nofail env0 db0 single_batch rows _ _ _ _
                    eq_refl H1 H2)).
  reflexivity.
Defined.

Lemma sync_empty_batch_witness :
  set_order_ok env0 /\
  committed (fst (run_sync final_commit_fails env0 db_g2 [])) = db_g2 /\
  (final_commit_fails OpCommitRaw = false -> final_commit_fails OpCommitFinal = false ->
   snd (run_sync final_commit_fails env0 db_g2 []) = Ok (RespSuccess [])).
Proof.
  split; [exact env0_ok|].
  apply sync_empty_batch; exact env0_ok.
Defined.

Lemma sync_missing_group_id_witness :
  In no_group_item [no_time_item; no_group_item] /\ i_group_id no_group_item = None /\
  exists s, run_sync nofail env0 db_g2 [no_time_item; no_group_item] =
              (s, Ok (RespError (exn_str (KeyError "group_id")))) /\ committed s = db_g2.
Proof.
  split; [right; left; reflexivity|split; [reflexivity|]].
  apply (sync_missing_group_id nofail env0 db_g2 _ no_group_item); [right; left; reflexivity|reflexivity].
Defined.

Lemma timestamp_suffix_Z_witness :
  ~ In "Z"%char (list_ascii_of_string "2025-01-01T06:30:00") /\
  replace_Z "2025-01-01T06:30:00" = "2025-01-01T06:30:00"%string /\
  replace_Z ("2025-01-01T06:30:00" ++ "Z") = ("2025-01-01T06:30:00" ++ "+00:00")%string.
Proof.
  assert (Hn : ~ In "Z"%char (list_ascii_of_string "2025-01-01T06:30:00")).
  { cbn; intro H; repeat (destruct H as [H|H]; [discriminate|]); exact H. }
  split; [exact Hn|apply timestamp_suffix_Z; exact Hn].
Defined.

(** ** Properties of AUTH and of the animal and fix routes *)

Lemma check_auth_true (C : Settings) (u p : string) :
  check_auth C u p = true <-> u = admin_username C /\ p = admin_password C.
Proof.
  unfold check_auth; rewrite andb_true_iff, !String.eqb_eq; tauto.
Qed.








Lemma existsb_id (id : string) (t : list Animal) :
  existsb (fun a => String.eqb (animal_id a) id) t = true <-> In id (map animal_id t).
Proof.
  rewrite existsb_exists, in_map_iff; split.
  - intros [a [Ha He]]; apply String.eqb_eq in He; exists a; split; assumption.
  - intros [a [He Ha]]; exists a; split; [exact Ha|apply String.eqb_eq; exact He].
Qed.

Lemma get_fix_some (fix_id : Z) (t : list FixRow) (f : FixRow) :
  get_fix fix_id t = Some f ->
  exists l1 l2, t = l1 ++ f :: l2 /\ fr_id f = fix_id /\ Forall (fun g => fr_id g <> fix_id) l1.
Proof.
  induction t as [|g t IH]; cbn; [discriminate|].
  destruct (Z.eqb (fr_id g) fix_id) eqn:Eg.
  - intro H; inversion H; subst; exists [], t; split; [reflexivity|].
    split; [apply Z.eqb_eq; exact Eg|constructor].
  - intro H; destruct (IH H) as [l1 [l2 [-> [Hid Hf]]]].
    exists (g :: l1), l2; split; [reflexivity|split; [exact Hid|]].
    constructor; [apply Z.eqb_neq; exact Eg|exact Hf].
Qed.

Lemma filter_id_none (fix_id : Z) (l : list FixRow) :
  Forall (fun g => fr_id g <> fix_id) l ->
  filter (fun g => negb (Z.eqb (fr_id g) fix_id)) l = l.
Proof.
  induction 1 as [|g l Hg _ IH]; cbn; [reflexivity|].
  apply Z.eqb_neq in Hg; rewrite Hg; cbn; rewrite IH; reflexivity.
Qed.

Lemma map_id_none (fix_id : Z) (f' : FixRow) (l : list FixRow) :
  Forall (fun g => fr_id g <> fix_id) l ->
  map (fun g => if Z.eqb (fr_id g) fix_id then f' else g) l = l.
Proof.
  induction 1 as [|g l Hg _ IH]; cbn; [reflexivity|].
  apply Z.eqb_neq in Hg; rewrite Hg, IH; reflexivity.
Qed.

Lemma fix_ids_split (fix_id : Z) (l1 l2 : list FixRow) (f : FixRow) :
  NoDup (map fr_id (l1 ++ f :: l2)) -> fr_id f = fix_id ->
  Forall (fun g => fr_id g <> fix_id) l2.
Proof.
  intros Hnd Hid; rewrite map_app in Hnd; cbn in Hnd.
  apply NoDup_remove_2 in Hnd.
  apply Forall_forall; intros g Hg Heq; apply Hnd.
  apply in_or_app; right; rewrite Hid, <- Heq; apply in_map; exact Hg.
Qed.

Lemma get_fix_none_forall (fix_id : Z) (l : list FixRow) :
  Forall (fun g => fr_id g <> fix_id) l -> get_fix fix_id l = None.
Proof.
  induction 1 as [|g l Hg _ IH]; cbn; [reflexivity|].
  apply Z.eqb_neq in Hg; rewrite Hg; exact IH.
Qed.

Lemma get_fix_app_none (fix_id : Z) (l1 l2 : list FixRow) :
  Forall (fun g => fr_id g <> fix_id) l1 -> get_fix fix_id (l1 ++ l2) = get_fix fix_id l2.
Proof.
  induction 1 as [|g l Hg _ IH]; cbn; [reflexivity|].
  apply Z.eqb_neq in Hg; rewrite Hg; exact IH.
Qed.

Lemma dict_get_absent (d : list (string * option string)) (k : string) (v : option string) :
  ~ In k (map fst d) -> dict_get d k v = v.
Proof.
  unfold dict_get; revert v; induction d as [|[k' w] d IH]; intros v Hn; cbn; [reflexivity|].
  cbn in Hn; destruct (String.eqb k' k) eqn:E.
  - apply String.eqb_eq in E; exfalso; apply Hn; left; exact E.
  - apply IH; intro H; apply Hn; right; exact H.
Qed.

(** X14.  A view wrapped by [requires_auth] runs exactly when the request
    carries the configured username and password; otherwise the state is
    unchanged and the answer is [authenticate()] (401 with a Basic
    challenge). *)
Theorem requires_auth_gate {S} (C : Settings) (f : S -> S * HttpResponse)
  (auth : option (string * string)) (s : S) :
  (auth = Some (admin_username C, admin_password C) /\
   requires_auth C f auth s = f s) \/
  (auth <> Some (admin_username C, admin_password C) /\
   requires_auth C f auth s = (s, authenticate)).
Proof.
  unfold requires_auth; destruct auth as [[u p]|].
  - destruct (check_auth C u p) eqn:Ec.
    + apply check_auth_true in Ec; destruct Ec as [-> ->]; left; split; reflexivity.
    + right; split; [|reflexivity].
      intro H; inversion H; subst.
      unfold check_auth in Ec; rewrite !String.eqb_refl in Ec; discriminate.
  - right; split; [discriminate|reflexivity].
Qed.

(** X15.  With [ADMIN_USERNAME] and [ADMIN_PASSWORD] unset, [check_auth]
    accepts exactly the username [admin] with the password [pango2025]. *)
Theorem default_credentials (getenv : string -> option string) (u p : string) :
  getenv "ADMIN_USERNAME"%string = None -> getenv "ADMIN_PASSWORD"%string = None ->
  check_auth (settings_of_env getenv) u p = true <-> u = "admin"%string /\ p = "pango2025"%string.
Proof.
  intros Hu Hp; rewrite check_auth_true; unfold settings_of_env; cbn; rewrite Hu, Hp; cbn.
  reflexivity.
Qed.



(** X18.  [add_animal] adds a row only when it answers 200; then the body
    carried a non-empty id that was not stored, and exactly one row with
    that id is appended.  Otherwise the table is unchanged.  Ids stay
    unique. *)
Theorem add_animal_outcome (D : AnimalDb) (now : Timestamp) (body : option (option string))
  (t t' : list Animal) (r : HttpResponse) :
  add_animal D now body t = (t', r) ->
  ((exists id, body = Some (Some id) /\ id <> EmptyString /\ ~ In id (map animal_id t) /\
     commit_error D = None /\ t' = t ++ [mkAnimal id now] /\ r = jsonify 200 (status_obj "added"))
   \/ (t' = t /\ http_status r <> 200%nat)) /\
  (NoDup (map animal_id t) -> NoDup (map animal_id t')).
Proof.
  unfold add_animal; intro H.
  assert (Hmain : (exists id, body = Some (Some id) /\ id <> EmptyString /\
     ~ In id (map animal_id t) /\ commit_error D = None /\ t' = t ++ [mkAnimal id now] /\
     r = jsonify 200 (status_obj "added")) \/ (t' = t /\ http_status r <> 200%nat)).
  { destruct body as [[id|]|]; [|inversion H; right; split; [reflexivity|discriminate]
                                |inversion H; right; split; [reflexivity|discriminate]].
    destruct id as [|c s] eqn:Eid;
      [inversion H; right; split; [reflexivity|discriminate]|].
    rewrite <- Eid in H.
    destruct (existsb _ t) eqn:Ex.
    - destruct (_ || _)%bool; inversion H; right; split; [reflexivity|discriminate|
        reflexivity|discriminate].
    - destruct (commit_error D) as [e|] eqn:Ec.
      + destruct (_ || _)%bool; inversion H; right; split; [reflexivity|discriminate|
          reflexivity|discriminate].
      + inversion H; subst; left; exists (String c s).
        split; [reflexivity|split; [discriminate|split; [|split; [first [exact Ec|reflexivity]|split; reflexivity]]]].
        intro Hin; apply existsb_id in Hin; congruence. }
  split; [exact Hmain|intro Hnd].
  destruct Hmain as [[id [_ [_ [Hn [_ [-> _]]]]]]|[-> _]]; [|exact Hnd].
  rewrite map_app; cbn; apply NoDup_app; [exact Hnd|constructor; [intros []|constructor]|].
  intros x Hx [Hy|[]]; subst x; contradiction.
Qed.


(** X20.  When adding a new id fails at commit, the table is unchanged and
    the answer is 409 [exists] if the error message contains [unique] or
    [duplicate] in some letter case, and 500 with the message otherwise. *)
Theorem add_animal_commit_failure (D : AnimalDb) (now : Timestamp) (id e : string)
  (t : list Animal) :
  id <> EmptyString -> ~ In id (map animal_id t) -> commit_error D = Some e ->
  add_animal D now (Some (Some id)) t =
  (t, if (contains "unique" (lower e) || contains "duplicate" (lower e))%bool
      then jsonify 409 (status_obj "exists")
      else jsonify 500 (status_msg_obj "error" e)).
Proof.
  intros Hne Hn He.
  assert (Hx : existsb (fun a => String.eqb (animal_id a) id) t = false).
  { destruct (existsb _ t) eqn:Ex; [|reflexivity]; apply existsb_id in Ex; contradiction. }
  unfold add_animal; destruct id as [|c s]; [contradiction|].
  rewrite Hx, He; cbv zeta; destruct (_ || _)%bool; reflexivity.
Qed.

(** X21.  [delete_fix] changes the table only when it answers 200, and then
    removes exactly the row with that id; deleting the same id again
    answers 404. *)
Theorem delete_fix_once (qe ce : option string) (fix_id : Z) (t t' : list FixRow)
  (r : HttpResponse) :
  NoDup (map fr_id t) ->
  delete_fix qe ce fix_id t = (t', r) ->
  (exists l1 l2 f, t = l1 ++ f :: l2 /\ fr_id f = fix_id /\ qe = None /\ ce = None /\
     t' = l1 ++ l2 /\ r = jsonify 200 (status_obj "deleted") /\
     forall ce', delete_fix None ce' fix_id t' = (t', jsonify 404 (status_obj "not found")))
  \/ (t' = t /\ http_status r <> 200%nat).
Proof.
  intros Hnd; unfold delete_fix.
  destruct qe as [e|]; [intro H; inversion H; right; split; [reflexivity|discriminate]|].
  destruct (get_fix fix_id t) as [f|] eqn:Eg.
  - destruct ce as [e|].
    + intro H; inversion H; right; split; [reflexivity|discriminate].
    + intro H; inversion H; subst; clear H; left.
      destruct (get_fix_some _ _ _ Eg) as [l1 [l2 [-> [Hid Hl1]]]].
      pose proof (fix_ids_split fix_id l1 l2 f Hnd Hid) as Hl2.
      exists l1, l2, f.
      rewrite filter_app; cbn; rewrite Hid, Z.eqb_refl; cbn.
      rewrite !filter_id_none by assumption.
      do 6 (split; [first [exact Hid|reflexivity]|]).
      intro ce'; rewrite get_fix_app_none, get_fix_none_forall by assumption; reflexivity.
  - intro H; inversion H; right; split; [reflexivity|discriminate].
Qed.

(** X22.  A successful [update_fix] sets [pango_id] and [note] of the row to
    the values sent under those keys ([null] clears them, the last of
    repeated keys wins), keeps them when the key is absent, keeps the other
    columns, and leaves the other rows unchanged. *)
Theorem update_fix_round_trip (fix_id : Z) (d : list (string * option string))
  (t t' : list FixRow) (f : FixRow) (r : HttpResponse) :
  NoDup (map fr_id t) -> get_fix fix_id t = Some f ->
  update_fix None None fix_id (Some d) t = (t', r) ->
  r = jsonify 200 (status_obj "updated") /\
  (exists f', get_fix fix_id t' = Some f' /\
     fr_pango_id f' = dict_get d "pango_id" (fr_pango_id f) /\
     fr_note f' = dict_get d "note" (fr_note f) /\
     fr_id f' = fr_id f /\ fr_group_id f' = fr_group_id f /\
     fr_calc_lat f' = fr_calc_lat f /\ fr_calc_lon f' = fr_calc_lon f /\
     fr_timestamp f' = fr_timestamp f /\
     (~ In "pango_id"%string (map fst d) -> fr_pango_id f' = fr_pango_id f) /\
     (~ In "note"%string (map fst d) -> fr_note f' = fr_note f)) /\
  filter (fun g => negb (Z.eqb (fr_id g) fix_id)) t' =
  filter (fun g => negb (Z.eqb (fr_id g) fix_id)) t.
Proof.
  intros Hnd Hg; unfold update_fix; rewrite Hg; intro H; inversion H; subst; clear H.
  destruct (get_fix_some _ _ _ Hg) as [l1 [l2 [-> [Hid Hl1]]]].
  pose proof (fix_ids_split fix_id l1 l2 f Hnd Hid) as Hl2.
  split; [reflexivity|split].
  - rewrite map_app; cbn; rewrite Hid, Z.eqb_refl, !map_id_none by assumption.
    rewrite get_fix_app_none by assumption; cbn; rewrite ?Hid, ?Z.eqb_refl.
    eexists; split; [reflexivity|cbn].
    do 7 (split; [reflexivity|]).
    split; intro Hn; apply dict_get_absent; exact Hn.
  - rewrite map_app; cbn; rewrite Hid, Z.eqb_refl, !map_id_none by assumption.
    rewrite !filter_app; cbn; rewrite ?Hid, ?Z.eqb_refl; reflexivity.
Qed.

(** X23.  [update_fix] answers 404 without touching the table for an
    unknown id, even with a [null] body; a [null] body for a known id, or
    a failing lookup or commit, leaves the table unchanged with a non-200
    answer. *)
Theorem update_fix_errors (qe ce : option string) (fix_id : Z)
  (data : option (list (string * option string))) (t t' : list FixRow) (r : HttpResponse) :
  update_fix qe ce fix_id data t = (t', r) ->
  (qe = None -> get_fix fix_id t = None -> t' = t /\ r = jsonify 404 (status_obj "not found")) /\
  (data = None -> t' = t /\ http_status r <> 200%nat) /\
  (qe <> None \/ ce <> None -> t' = t /\ http_status r <> 200%nat).
Proof.
  unfold update_fix; intro H.
  assert (Hun : t' = t /\ (http_status r <> 200%nat \/ r = jsonify 200 (status_obj "updated") /\
                           qe = None /\ ce = None /\ data <> None) \/
                qe = None /\ ce = None /\ data <> None /\ http_status r = 200%nat).
  { destruct qe as [e|]; [inversion H; left; split; [reflexivity|left; discriminate]|].
    destruct (get_fix fix_id t) as [f|]; [|inversion H; left; split; [reflexivity|left; discriminate]].
    destruct data as [d|]; [|inversion H; left; split; [reflexivity|left; discriminate]].
    destruct ce as [e|]; inversion H; [left; split; [reflexivity|left; discriminate]|].
    right; split; [reflexivity|split; [reflexivity|split; [discriminate|reflexivity]]]. }
  split; [|split].
  - intros Hq Hg; subst qe; rewrite Hg in H; inversion H; split; reflexivity.
  - intro Hd; destruct Hun as [[Ht [Hs|[_ [_ [_ Hd']]]]]|[_ [_ [Hd' _]]]];
      [split; assumption|contradiction|contradiction].
  - intro Hqc; destruct Hun as [[Ht [Hs|[_ [Hq [Hc _]]]]]|[Hq [Hc _]]];
      [split; assumption|destruct Hqc; contradiction|destruct Hqc; contradiction].
Qed.

Lemma default_credentials_witness :
  no_env "ADMIN_USERNAME"%string = None /\ no_env "ADMIN_PASSWORD"%string = None /\
  (check_auth (settings_of_env no_env) "admin" "pango2025" = true <->
   "admin"%string = "admin"%string /\ "pango2025"%string = "pango2025"%string).
Proof.
  split; [reflexivity|split; [reflexivity|]].
  apply default_credentials; reflexivity.
Defined.



Lemma add_animal_outcome_witness :
  exists t' r, add_animal sqlite_db 0%Z (Some (Some "P17"%string)) [mkAnimal "P01" 0%Z] = (t', r) /\
  (((exists id, Some (Some "P17"%string) = Some (Some id) /\ id <> EmptyString /\
       ~ In id (map animal_id [mkAnimal "P01" 0%Z]) /\ commit_error sqlite_db = None /\
       t' = [mkAnimal "P01" 0%Z] ++ [mkAnimal id 0%Z] /\ r = jsonify 200 (status_obj "added"))
     \/ (t' = [mkAnimal "P01" 0%Z] /\ http_status r <> 200%nat)) /\
   (NoDup (map animal_id [mkAnimal "P01" 0%Z]) -> NoDup (map animal_id t'))).
Proof.
  eexists _, _; split; [reflexivity|].
  apply add_animal_outcome; reflexivity.
Defined.


Lemma add_animal_commit_failure_witness :
  "P17"%string <> EmptyString /\ ~ In "P17"%string (map animal_id [mkAnimal "P01" 0%Z]) /\
  commit_error locked_db = Some "(sqlite3.OperationalError) database is locked"%string /\
  add_animal locked_db 0%Z (Some (Some "P17"%string)) [mkAnimal "P01" 0%Z] =
  ([mkAnimal "P01" 0%Z],
   if (contains "unique" (lower "(sqlite3.OperationalError) database is locked") ||
       contains "duplicate" (lower "(sqlite3.OperationalError) database is locked"))%bool
   then jsonify 409 (status_obj "exists")
   else jsonify 500 (status_msg_obj "error" "(sqlite3.OperationalError) database is locked")).
Proof.
  assert (H1 : "P17"%string <> EmptyString) by discriminate.
  assert (H2 : ~ In "P17"%string (map animal_id [mkAnimal "P01" 0%Z]))
    by (cbn; intros [H|[]]; discriminate).
  split; [exact H1|split; [exact H2|split; [reflexivity|]]].
  apply add_animal_commit_failure; [exact H1|exact H2|reflexivity].
Defined.

Lemma delete_fix_once_witness :
  exists t' r, NoDup (map fr_id fix_table) /\ delete_fix None None 1%Z fix_table = (t', r) /\
  ((exists l1 l2 f, fix_table = l1 ++ f :: l2 /\ fr_id f = 1%Z /\ @None string = None /\
      @None string = None /\
      t' = l1 ++ l2 /\ r = jsonify 200 (status_obj "deleted") /\
      forall ce', delete_fix None ce' 1%Z t' = (t', jsonify 404 (status_obj "not found")))
   \/ (t' = fix_table /\ http_status r <> 200%nat)).
Proof.
  assert (Hnd : NoDup (map fr_id fix_table)).
  { cbn; constructor; [intros [H|[]]; discriminate|constructor; [intros []|constructor]]. }
  eexists _, _; split; [exact Hnd|split; [reflexivity|]].
  apply delete_fix_once; [exact Hnd|reflexivity].
Defined.

Lemma update_fix_round_trip_witness :
  exists t' r, NoDup (map fr_id fix_table) /\ get_fix 2%Z fix_table = Some (fix_row 2 "g2") /\
  update_fix None None 2%Z (Some [("note"%string, Some "checked"%string)]) fix_table = (t', r) /\
  (r = jsonify 200 (status_obj "updated") /\
   (exists f', get_fix 2%Z t' = Some f' /\
      fr_pango_id f' = dict_get [("note"%string, Some "checked"%string)] "pango_id"
                         (fr_pango_id (fix_row 2 "g2")) /\
      fr_note f' = dict_get [("note"%string, Some "checked"%string)] "note"
                     (fr_note (fix_row 2 "g2")) /\
      fr_id f' = fr_id (fix_row 2 "g2") /\ fr_group_id f' = fr_group_id (fix_row 2 "g2") /\
      fr_calc_lat f' = fr_calc_lat (fix_row 2 "g2") /\
      fr_calc_lon f' = fr_calc_lon (fix_row 2 "g2") /\
      fr_timestamp f' = fr_timestamp (fix_row 2 "g2") /\
      (~ In "pango_id"%string (map fst [("note"%string, Some "checked"%string)]) ->
       fr_pango_id f' = fr_pango_id (fix_row 2 "g2")) /\
      (~ In "note"%string (map fst [("note"%string, Some "checked"%string)]) ->
       fr_note f' = fr_note (fix_row 2 "g2"))) /\
   filter (fun g => negb (Z.eqb (fr_id g) 2%Z)) t' =
   filter (fun g => negb (Z.eqb (fr_id g) 2%Z)) fix_table).
Proof.
  assert (Hnd : NoDup (map fr_id fix_table)).
  { cbn; constructor; [intros [H|[]]; discriminate|constructor; [intros []|constructor]]. }
  eexists _, _; split; [exact Hnd|split; [reflexivity|split; [reflexivity|]]].
  apply update_fix_round_trip; [exact Hnd|reflexivity|reflexivity].
Defined.

Lemma update_fix_errors_witness :
  exists t' r, update_fix None None 3%Z None fix_table = (t', r) /\
  ((@None string = None -> get_fix 3%Z fix_table = None ->
    t' = fix_table /\ r = jsonify 404 (status_obj "not found")) /\
   (@None (list (string * option string)) = None -> t' = fix_table /\ http_status r <> 200%nat) /\
   (@None string <> None \/ @None string <> None -> t' = fix_table /\ http_status r <> 200%nat)).
Proof.
  eexists _, _; split; [reflexivity|].
  apply update_fix_errors; reflexivity.
Defined.
